(** * The date and time parser of grafana-data

    A shallow embedding of
    [packages/grafana-data/src/datetime/parser.ts] ([dateTimeParse],
    [parseString], [parseOthers]) together with the two library functions
    whose exact behaviour the parser's branches depend on:
    [String.prototype.indexOf] and lodash's [lowerCase].

    Text is modelled by [string], one character per code unit; code units
    above 255 are outside the model. *)

From Stdlib Require Import String Ascii List ZArith Bool Arith Lia.
Import ListNotations.

Local Open Scope string_scope.
Local Open Scope nat_scope.

(** ** JavaScript strings *)

Module JsString.

(** [value.indexOf(searchString)]: the position of the first occurrence
    of [searchString] in [value], counted from 0, and [-1] when there is
    none. *)
Definition indexOf (value searchString : string) : Z :=
  match String.index 0 searchString value with
  | Some k => Z.of_nat k
  | None => (-1)%Z
  end.

(** [needle] occurs somewhere in [s]. *)
Definition Contains (needle s : string) : Prop :=
  exists before after, s = before ++ needle ++ after.

(** ASCII case folding, used to speak about the casings of a word. *)
Definition foldAscii (c : ascii) : ascii :=
  let n := nat_of_ascii c in
  if (65 <=? n) && (n <=? 90) then ascii_of_nat (n + 32) else c.

Fixpoint foldCase (s : string) : string :=
  match s with
  | EmptyString => EmptyString
  | String c s' => String (foldAscii c) (foldCase s')
  end.

End JsString.

(** ** lodash [lowerCase]

    [lowerCase] is [createCompounder] applied to
    [(result, word, index) => result + (index ? ' ' : '') + word.toLowerCase()]:
    the text is deburred, apostrophes are removed, the result is split into
    words by [words] and the lower-cased words are joined by single spaces.
    (lodash documents [_.lowerCase('fooBar')] as ['foo bar'] and
    [_.lowerCase('--Foo-Bar--')] as ['foo bar'].)

    The regular expressions are transcribed for code units 0..255.  In that
    range the class [rsMisc] is empty, dingbats and emoji do not occur, and the
    optional contraction suffixes ([rsOptContrLower], [rsOptContrUpper]) can
    never match because they start with an apostrophe, which has been removed
    before [words] runs. *)

Module Lodash.

Local Open Scope char_scope.
Local Open Scope list_scope.
Local Open Scope nat_scope.

Definition code (c : ascii) : nat := nat_of_ascii c.

Definition between (lo hi : nat) (c : ascii) : bool :=
  (lo <=? code c) && (code c <=? hi).

(** [a-z], [A-Z], [0-9] and [\w]. *)
Definition azLower (c : ascii) : bool := between 97 122 c.
Definition azUpper (c : ascii) : bool := between 65 90 c.
Definition digit (c : ascii) : bool := between 48 57 c.
Definition wordChar (c : ascii) : bool :=
  azLower c || azUpper c || digit c || (code c =? 95).

(** [rsLowerRange = 'a-z\xdf-\xf6\xf8-\xff'] *)
Definition rsLower (c : ascii) : bool :=
  between 97 122 c || between 223 246 c || between 248 255 c.

(** [rsUpperRange = 'A-Z\xc0-\xd6\xd8-\xde'] *)
Definition rsUpper (c : ascii) : bool :=
  between 65 90 c || between 192 214 c || between 216 222 c.

(** [rsBreakRange]: the maths operators [\xac\xb1\xd7\xf7], the non-character
    range [\x00-\x2f\x3a-\x40\x5b-\x60\x7b-\xbf] and the spaces (all of which
    lie, below 256, inside the non-character range). *)
Definition rsBreak (c : ascii) : bool :=
  between 0 47 c || between 58 64 c || between 91 96 c || between 123 191 c
  || (code c =? 215) || (code c =? 247).

(** [deburrLetter]: the Latin-1 Supplement block of [deburredLetters];
    [reLatin] leaves every other code unit below 256 alone. *)
Definition deburrLetter (c : ascii) : list ascii :=
  let n := code c in
  if between 192 197 c then ["A"]
  else if n =? 198 then ["A"; "e"]
  else if n =? 199 then ["C"]
  else if between 200 203 c then ["E"]
  else if between 204 207 c then ["I"]
  else if n =? 208 then ["D"]
  else if n =? 209 then ["N"]
  else if between 210 214 c || (n =? 216) then ["O"]
  else if between 217 220 c then ["U"]
  else if n =? 221 then ["Y"]
  else if n =? 222 then ["T"; "h"]
  else if n =? 223 then ["s"; "s"]
  else if between 224 229 c then ["a"]
  else if n =? 230 then ["a"; "e"]
  else if n =? 231 then ["c"]
  else if between 232 235 c then ["e"]
  else if between 236 239 c then ["i"]
  else if n =? 240 then ["d"]
  else if n =? 241 then ["n"]
  else if between 242 246 c || (n =? 248) then ["o"]
  else if between 249 252 c then ["u"]
  else if (n =? 253) || (n =? 255) then ["y"]
  else if n =? 254 then ["t"; "h"]
  else [c].

Definition deburr (s : list ascii) : list ascii := flat_map deburrLetter s.

(** [reApos = /['’]/g] *)
Definition isApos (c : ascii) : bool := code c =? 39.

(** [String.prototype.toLowerCase] on one code unit below 256. *)
Definition toLowerCase (c : ascii) : ascii :=
  if rsUpper c then ascii_of_nat (code c + 32) else c.

(** [reHasUnicodeWord =
    /[a-z][A-Z]|[A-Z]{2}[a-z]|[0-9][a-zA-Z]|[a-zA-Z][0-9]|[^a-zA-Z0-9 ]/],
    tried at the head of [s]. *)
Definition hasUnicodeWordAt (s : list ascii) : bool :=
  let letter c := azLower c || azUpper c in
  match s with
  | [] => false
  | a :: rest =>
      negb (letter a || digit a || (code a =? 32))
      || match rest with
         | [] => false
         | b :: rest' =>
             (azLower a && azUpper b)
             || (digit a && letter b)
             || (letter a && digit b)
             || match rest' with
                | [] => false
                | c :: _ => azUpper a && azUpper b && azLower c
                end
         end
  end.

Fixpoint hasUnicodeWord (s : list ascii) : bool :=
  match s with
  | [] => false
  | _ :: t => hasUnicodeWordAt s || hasUnicodeWord t
  end.

(** [reAsciiWord = /[^\x00-\x2f\x3a-\x40\x5b-\x60\x7b-\x7f]+/g] *)
Definition asciiWordChar (c : ascii) : bool :=
  negb (between 0 47 c || between 58 64 c || between 91 96 c
        || between 123 127 c).

Definition flush (cur : list ascii) : list (list ascii) :=
  match cur with
  | [] => []
  | _ => [cur]
  end.

Fixpoint asciiWordsFrom (cur s : list ascii) : list (list ascii) :=
  match s with
  | [] => flush cur
  | c :: t =>
      if asciiWordChar c then asciiWordsFrom (cur ++ [c]) t
      else flush cur ++ asciiWordsFrom [] t
  end.

Definition asciiWords (s : list ascii) : list (list ascii) :=
  asciiWordsFrom [] s.

(** *** A small backtracking matcher

    A pattern continuation takes the number of code units consumed so far
    and answers the length of the whole match, if the rest of the pattern
    matches there. *)

Fixpoint span (p : ascii -> bool) (s : list ascii) : nat :=
  match s with
  | c :: t => if p c then S (span p t) else 0
  | [] => 0
  end.

(** A greedy quantifier: the counts [hi], [hi - 1], ..., [lo] are tried in
    that order. *)
Fixpoint greedy (lo hi : nat) (k : nat -> option nat) : option nat :=
  if hi <? lo then None
  else
    match k hi with
    | Some r => Some r
    | None =>
        match hi with
        | 0 => None
        | S h => greedy lo h k
        end
    end.

(** [p?] at the head of [s]. *)
Definition optional (p : ascii -> bool) (s : list ascii)
    (k : nat -> option nat) : option nat :=
  greedy 0 (Nat.min 1 (span p s)) k.

(** [p+] and [p*] after [from] code units of [s]. *)
Definition plus (p : ascii -> bool) (s : list ascii) (from : nat)
    (k : nat -> option nat) : option nat :=
  greedy 1 (span p (skipn from s)) (fun j => k (from + j)).

Definition star (p : ascii -> bool) (s : list ascii) (from : nat)
    (k : nat -> option nat) : option nat :=
  greedy 0 (span p (skipn from s)) (fun j => k (from + j)).

(** A lookahead [(?=...)] on what follows the first [j] code units. *)
Definition lookahead (la : list ascii -> bool) (s : list ascii) (j : nat)
    : option nat :=
  if la (skipn j s) then Some j else None.

(** [(?=rsBreak|rsUpper|$)] *)
Definition afterLowerWord (r : list ascii) : bool :=
  match r with
  | [] => true
  | c :: _ => rsBreak c || rsUpper c
  end.

(** [(?=rsBreak|rsUpper rsMiscLower|$)] *)
Definition afterUpperWord (r : list ascii) : bool :=
  match r with
  | [] => true
  | c :: r' =>
      rsBreak c
      || (rsUpper c && match r' with d :: _ => rsLower d | [] => false end)
  end.

(** [(?:1ST|2ND|3RD|(?![123])\dTH)] and its lower-case twin, at the head of
    [r]; both match exactly three code units. *)
Definition ordinal (upper : bool) (r : list ascii) : bool :=
  let fix same (x y : list ascii) : bool :=
    match x, y with
    | [], [] => true
    | a :: x', b :: y' => (code a =? code b) && same x' y'
    | _, _ => false
    end in
  let suffix (lo up : string) :=
    list_ascii_of_string (if upper then up else lo) in
  match r with
  | d :: x :: y :: _ =>
      same [d; x; y] ("1" :: suffix "st"%string "ST"%string)
      || same [d; x; y] ("2" :: suffix "nd"%string "ND"%string)
      || same [d; x; y] ("3" :: suffix "rd"%string "RD"%string)
      || (digit d && negb (between 49 51 d) && same [x; y] (suffix "th"%string "TH"%string))
  | _ => false
  end.

(** [(?=\b|[a-z_])] after [rsOrdUpper] and [(?=\b|[A-Z_])] after
    [rsOrdLower]; the code unit before the boundary is a letter. *)
Definition afterOrdinal (upper : bool) (r : list ascii) : bool :=
  match r with
  | [] => true
  | c :: _ =>
      negb (wordChar c)
      || (if upper then azLower c else azUpper c)
      || (code c =? 95)
  end.

(** [rsOrdUpper] ([upper = true]) and [rsOrdLower]:
    [\d*(?:1ST|...)(?=\b|[a-z_])]. *)
Definition rsOrd (upper : bool) (s : list ascii) : option nat :=
  star digit s 0 (fun i =>
    if ordinal upper (skipn i s)
    then lookahead (afterOrdinal upper) s (i + 3)
    else None).

(** The alternatives of [reUnicodeWord], in their order, tried at the head
    of [s]. *)
Definition unicodeWordAlternatives (s : list ascii) : list (option nat) :=
  [ optional rsUpper s (fun i =>
      plus rsLower s i (lookahead afterLowerWord s));
    plus rsUpper s 0 (lookahead afterUpperWord s);
    optional rsUpper s (fun i => plus rsLower s i Some);
    plus rsUpper s 0 Some;
    rsOrd true s;
    rsOrd false s;
    plus digit s 0 Some ].

Fixpoint firstMatch (alts : list (option nat)) : option nat :=
  match alts with
  | [] => None
  | Some r :: _ => Some r
  | None :: rest => firstMatch rest
  end.

Definition unicodeWordAt (s : list ascii) : option nat :=
  firstMatch (unicodeWordAlternatives s).

(** [string.match(reUnicodeWord)]: matches are collected from left to
    right; [skip] counts the code units of the current match that are still
    to be passed over. *)
Fixpoint unicodeWordsFrom (skip : nat) (s : list ascii)
    : list (list ascii) :=
  match s with
  | [] => []
  | _ :: t =>
      match skip with
      | S k => unicodeWordsFrom k t
      | 0 =>
          match unicodeWordAt s with
          | Some (S n) => firstn (S n) s :: unicodeWordsFrom n t
          | _ => unicodeWordsFrom 0 t
          end
      end
  end.

Definition unicodeWords (s : list ascii) : list (list ascii) :=
  unicodeWordsFrom 0 s.

(** [words(string)] with no pattern. *)
Definition words (s : list ascii) : list (list ascii) :=
  if hasUnicodeWord s then unicodeWords s else asciiWords s.

(** [arrayReduce(words, callback, '')] for [lowerCase]'s callback. *)
Fixpoint compound (index : nat) (ws : list (list ascii)) : list ascii :=
  match ws with
  | [] => []
  | w :: rest =>
      (match index with 0 => [] | S _ => [" "] end)
      ++ map toLowerCase w ++ compound (S index) rest
  end.

Definition lowerCase (s : string) : string :=
  let cleaned :=
    filter (fun c => negb (isApos c)) (deburr (list_ascii_of_string s)) in
  string_of_list_ascii (compound 0 (words cleaned)).

End Lodash.

(** ** The parser and its collaborators *)

(** [TimeZone] of [types/time.ts] is a string: a zone name, ["utc"] or
    ["browser"]. *)
Definition TimeZone : Type := string.

(** [DateTimeOptionsWhenParsing]: the optional [timeZone] of [DateTimeOptions]
    and the optional [roundUp]. *)
Record DateTimeOptionsWhenParsing : Type := {
  timeZone : option TimeZone;
  roundUp : option bool
}.

(** What the parser reads of a moment-timezone [Zone]. *)
Record Zone : Type := { name : string }.

(** [JsError]: the one exception the statements of the parser can raise by
    themselves, reading a property of [null]. *)
Inductive JsError : Type :=
| TypeError.

(** How the evaluation of an expression ends. *)
Inductive Completion (A : Type) : Type :=
| Normal (a : A)
| Throw (e : JsError).

Arguments Normal {A} a.
Arguments Throw {A} e.

Section Parser.

(** [DateTime] is the moment object of [moment_wrapper.ts]; [Other] stands
    for the shapes of [DateTimeInput] that are neither a [DateTime] nor a
    string ([Date], number, array, [null]).  The parser never looks inside
    either. *)
Context {DateTime Other : Type}.

(** [DateTimeInput], split the way [dateTimeParse] tests it:
    [isDateTime(value)], then [typeof value === 'string']. *)
Inductive DateTimeInput : Type :=
| InDateTime (d : DateTime)
| InString (s : string)
| InOther (x : Other).

(** The functions the parser calls and does not define: moment and
    moment-timezone, the date-math engine [./datemath] and the default
    time zone behind [getTimeZone] of [./common]. *)
Record Env : Type := {
  (** [moment()]: the current instant *)
  momentNow : DateTime;
  (** [moment(date)]: [date] read in the local zone *)
  moment : DateTimeInput -> DateTime;
  (** [moment.utc(date)] *)
  momentUtc : DateTimeInput -> DateTime;
  (** [moment.tz(date, name)] *)
  momentTz : DateTimeInput -> string -> DateTime;
  (** [moment.tz.zone(name)] *)
  momentTzZone : string -> option Zone;
  (** [isValid(text)] of the date-math engine *)
  isValid : string -> bool;
  (** [parse(text, roundUp, timeZone)] of the date-math engine *)
  parse : string -> option bool -> option TimeZone -> option DateTime;
  (** the process-wide default time zone *)
  defaultTimeZone : TimeZone
}.

(** The calls a run of the parser makes to its collaborators. *)
Inductive Call : Type :=
| CallMomentNow
| CallMoment (date : DateTimeInput)
| CallMomentUtc (date : DateTimeInput)
| CallMomentTz (date : DateTimeInput) (zoneName : string)
| CallMomentTzZone (zoneName : string)
| CallIsValid (text : string)
| CallParse (text : string) (up : option bool) (tz : option TimeZone)
| CallDefaultTimeZone.

(** A computation reads the collaborators, ends normally or by an
    exception, and leaves the list of the calls it made. *)
Definition M (A : Type) : Type := Env -> Completion A * list Call.

Definition ret {A : Type} (a : A) : M A := fun _ => (Normal a, []).

Definition throw {A : Type} (e : JsError) : M A := fun _ => (Throw e, []).

Definition bind {A B : Type} (m : M A) (f : A -> M B) : M B :=
  fun env =>
    match m env with
    | (Normal a, calls) =>
        let (r, calls') := f a env in (r, (calls ++ calls')%list)
    | (Throw e, calls) => (Throw e, calls)
    end.

Definition call {A : Type} (c : Call) (answer : Env -> A) : M A :=
  fun env => (Normal (answer env), [c]).

Definition run {A : Type} (m : M A) (env : Env) : Completion A * list Call :=
  m env.

End Parser.

Arguments DateTimeInput : clear implicits.
Arguments Env : clear implicits.
Arguments Call : clear implicits.
Arguments M : clear implicits.

Declare Scope js_scope.
Delimit Scope js_scope with js.
Notation "x <- m ;; k" := (bind m (fun x => k))
  (at level 61, m at next level, right associativity) : js_scope.

Section ParserCode.

Context {DateTime Other : Type}.

Local Abbreviation Input := (DateTimeInput DateTime Other).
Local Abbreviation Js := (M DateTime Other).
Local Open Scope js_scope.

(** *** Expressions of the source *)

(** [options?.timeZone] and [options?.roundUp]. *)
Definition optTimeZone (options : option DateTimeOptionsWhenParsing)
    : option TimeZone :=
  match options with
  | Some o => timeZone o
  | None => None
  end.

Definition optRoundUp (options : option DateTimeOptionsWhenParsing)
    : option bool :=
  match options with
  | Some o => roundUp o
  | None => None
  end.

(** [zone.name], which raises a [TypeError] when [zone] is [null]. *)
Definition zoneName (zone : option Zone) : Js string :=
  match zone with
  | Some z => ret (name z)
  | None => throw TypeError
  end.

(** The truth value of [zone && zone.name]: [&&] reads [zone.name] only
    when [zone] is not [null], and the empty string is falsy. *)
Definition zoneAndName (zone : option Zone) : Js bool :=
  match zone with
  | None => ret false
  | Some _ => n <- zoneName zone ;; ret (negb (n =? "")%string)
  end.

(** Modelled from the spec: [getTimeZone] of [./common] is not part of
    the sources at hand.  "Resolve the effective TimeZoneSpec from
    options.timeZone, falling back to the process-wide default zone if
    absent." *)
Definition getTimeZone (options : option DateTimeOptionsWhenParsing)
    : Js TimeZone :=
  match optTimeZone options with
  | Some tz => ret tz
  | None => call CallDefaultTimeZone defaultTimeZone
  end.

(** *** parser.ts *)

Definition parseOthers (value : Input)
    (options : option DateTimeOptionsWhenParsing) : Js DateTime :=
  let date := value in
  timeZone <- getTimeZone options ;;
  zone <- call (CallMomentTzZone timeZone) (fun env => momentTzZone env timeZone) ;;
  found <- zoneAndName zone ;;
  if found : bool then
    n <- zoneName zone ;;
    call (CallMomentTz date n) (fun env => momentTz env date n)
  else
    if (Lodash.lowerCase timeZone =? "utc")%string
    then call (CallMomentUtc date) (fun env => momentUtc env date)
    else call (CallMoment date) (fun env => moment env date).

Definition parseString (value : string)
    (options : option DateTimeOptionsWhenParsing) : Js DateTime :=
  if negb (JsString.indexOf value "now" =? -1)%Z then
    valid <- call (CallIsValid value) (fun env => isValid env value) ;;
    if negb valid then call CallMomentNow momentNow
    else
      parsed <- call (CallParse value (optRoundUp options) (optTimeZone options))
                  (fun env => parse env value (optRoundUp options)
                                (optTimeZone options)) ;;
      match parsed with
      | Some d => ret d
      | None => call CallMomentNow momentNow
      end
  else parseOthers (InString value) options.

Definition dateTimeParse (value : Input)
    (options : option DateTimeOptionsWhenParsing) : Js DateTime :=
  match value with
  | InDateTime d => ret d
  | InString s => parseString s options
  | InOther _ => parseOthers value options
  end.

End ParserCode.

(** ** Vocabulary of the properties *)

Section Vocabulary.

Context {DateTime Other : Type}.

Local Abbreviation Input := (DateTimeInput DateTime Other).

(** The zone name [parseOthers] works with: [options.timeZone] when it is
    given, the default zone otherwise. *)
Definition effectiveTimeZone (env : Env DateTime Other)
    (options : option DateTimeOptionsWhenParsing) : TimeZone :=
  match optTimeZone options with
  | Some tz => tz
  | None => defaultTimeZone env
  end.

(** The calls [parseOthers] makes before it constructs anything: the default
    zone is read when the options name none, then the zone is looked up. *)
Definition lookupCalls (env : Env DateTime Other)
    (options : option DateTimeOptionsWhenParsing) : list (Call DateTime Other) :=
  match optTimeZone options with
  | Some tz => [CallMomentTzZone tz]
  | None => [CallDefaultTimeZone; CallMomentTzZone (defaultTimeZone env)]
  end.

(** Calls to the date-math engine. *)
Definition isEngineCall (c : Call DateTime Other) : bool :=
  match c with
  | CallIsValid _ | CallParse _ _ _ => true
  | _ => false
  end.

Definition consultsEngine (calls : list (Call DateTime Other)) : bool :=
  existsb isEngineCall calls.

(** The two constructions of the literal-match fallback: [moment.utc(date)]
    and [moment(date)]. *)
Definition isFallbackCall (c : Call DateTime Other) : bool :=
  match c with
  | CallMomentUtc _ | CallMoment _ => true
  | _ => false
  end.

Definition usesFallback (calls : list (Call DateTime Other)) : bool :=
  existsb isFallbackCall calls.

(** Inputs that [dateTimeParse] hands to [parseOthers]: strings without
    ["now"] and the values that are neither a [DateTime] nor a string. *)
Definition OnGenericPath (value : Input) : Prop :=
  match value with
  | InDateTime _ => False
  | InString s => ~ JsString.Contains "now" s
  | InOther _ => True
  end.

(** Inputs that are not resolved as a relative expression: a [DateTime], a
    string without ["now"], any other value. *)
Definition NotRelative (value : Input) : Prop :=
  match value with
  | InString s => ~ JsString.Contains "now" s
  | _ => True
  end.

(** The branches of the parser, as a relation between the input and the
    instant it resolves to. *)
Inductive Resolves (env : Env DateTime Other)
    (options : option DateTimeOptionsWhenParsing) : Input -> DateTime -> Prop :=
| ResolvesPassthrough (d : DateTime) :
    Resolves env options (InDateTime d) d
| ResolvesInvalid (s : string) :
    JsString.Contains "now" s ->
    isValid env s = false ->
    Resolves env options (InString s) (momentNow env)
| ResolvesEvaluated (s : string) (d : DateTime) :
    JsString.Contains "now" s ->
    isValid env s = true ->
    parse env s (optRoundUp options) (optTimeZone options) = Some d ->
    Resolves env options (InString s) d
| ResolvesUnevaluated (s : string) :
    JsString.Contains "now" s ->
    isValid env s = true ->
    parse env s (optRoundUp options) (optTimeZone options) = None ->
    Resolves env options (InString s) (momentNow env)
| ResolvesInZone (value : Input) (z : Zone) :
    OnGenericPath value ->
    momentTzZone env (effectiveTimeZone env options) = Some z ->
    name z <> "" ->
    Resolves env options value (momentTz env value (name z))
| ResolvesUtc (value : Input) :
    OnGenericPath value ->
    (forall z, momentTzZone env (effectiveTimeZone env options) = Some z ->
               name z = "") ->
    Lodash.lowerCase (effectiveTimeZone env options) = "utc" ->
    Resolves env options value (momentUtc env value)
| ResolvesLocal (value : Input) :
    OnGenericPath value ->
    (forall z, momentTzZone env (effectiveTimeZone env options) = Some z ->
               name z = "") ->
    Lodash.lowerCase (effectiveTimeZone env options) <> "utc" ->
    Resolves env options value (moment env value).

(** Calls of [moment()] without an argument.  (What [moment(date)],
    [moment.utc(date)] and [moment.tz(date, name)] make of an empty date is
    moment's own business and is not counted here.) *)
Definition isMomentNowCall (c : Call DateTime Other) : bool :=
  match c with
  | CallMomentNow => true
  | _ => false
  end.

Definition callsMomentNow (calls : list (Call DateTime Other)) : bool :=
  existsb isMomentNowCall calls.

(** Calls about zones and dates: the default zone, the zone database and the
    three constructions from a date. *)
Definition isZoneCall (c : Call DateTime Other) : bool :=
  match c with
  | CallDefaultTimeZone | CallMomentTzZone _
  | CallMoment _ | CallMomentUtc _ | CallMomentTz _ _ => true
  | _ => false
  end.

Definition usesZones (calls : list (Call DateTime Other)) : bool :=
  existsb isZoneCall calls.

(** Text made of the letters [a-z] only. *)
Definition lowerLetters (s : string) : bool :=
  forallb Lodash.azLower (list_ascii_of_string s).

(** The code units of ["utc"]. *)
Definition utc : list ascii := list_ascii_of_string "utc".

(** Code units for which [words] does without [unicodeWords]:
    [a-zA-Z0-9 ]. *)
Definition plain (c : ascii) : bool :=
  Lodash.azLower c || Lodash.azUpper c || Lodash.digit c
  || (Lodash.code c =? 32).

(** The text without the breaks (separators) it starts with. *)
Fixpoint dropBreaks (s : list ascii) : list ascii :=
  match s with
  | c :: t => if Lodash.rsBreak c then dropBreaks t else s
  | [] => []
  end.

(** The three spellings ["utc"], ["Utc"] and ["UTC"]. *)
Definition utcSpelling (a b c : ascii) : bool :=
  existsb (String.eqb (String a (String b (String c ""))))
    ["utc"; "Utc"; "UTC"].

(** The text as [words] receives it: accents stripped by [deburr],
    apostrophes removed. *)
Definition cleaned (tz : string) : list ascii :=
  filter (fun c => negb (Lodash.isApos c))
    (Lodash.deburr (list_ascii_of_string tz)).

(** One of the three spellings with nothing but breaks before and after
    it. *)
Definition utcShape (s : list ascii) : bool :=
  match dropBreaks s with
  | a :: b :: c :: rest => utcSpelling a b c && forallb Lodash.rsBreak rest
  | _ => false
  end.

(** A spelling of ["utc"]: the zone strings that, accents and apostrophes
    set aside, read ["utc"], ["Utc"] or ["UTC"] between separators. *)
Definition utcWord (tz : string) : bool := utcShape (cleaned tz).

End Vocabulary.

(** ** A small world to run the parser in *)

Module Fixture.

(** Instants are written as the construction that produced them, so that
    different constructions stay apart; the other inputs are epoch
    milliseconds. *)
#[warnings="-register-all"]
Inductive Stamp : Type :=
| Clock
| Local (date : DateTimeInput Stamp Z)
| Utc (date : DateTimeInput Stamp Z)
| InZone (date : DateTimeInput Stamp Z) (zone : string)
| Evaluated (text : string) (up : option bool) (tz : option TimeZone).

(** A zone database with three entries. *)
Definition zones (n : string) : option Zone :=
  if (n =? "UTC")%string then Some {| name := "UTC" |}
  else if (n =? "America/New_York")%string
       then Some {| name := "America/New_York" |}
  else if (n =? "Europe/Stockholm")%string
       then Some {| name := "Europe/Stockholm" |}
  else None.

(** A zone database whose entry for ["Etc/Unnamed"] has no name. *)
Definition unnamedZones (n : string) : option Zone :=
  if (n =? "Etc/Unnamed")%string then Some {| name := "" |} else zones n.

(** An engine that accepts four expressions and evaluates three of them. *)
Definition engineIsValid (text : string) : bool :=
  existsb (String.eqb text) ["now"; "now-6h"; "now-1d/d"; "now/fy"].

Definition engineParse (text : string) (up : option bool)
    (tz : option TimeZone) : option Stamp :=
  if (text =? "now/fy")%string then None
  else if engineIsValid text then Some (Evaluated text up tz)
  else None.

Definition worldWith (db : string -> option Zone) : Env Stamp Z :=
  {| momentNow := Clock;
     moment := Local;
     momentUtc := Utc;
     momentTz := InZone;
     momentTzZone := db;
     isValid := engineIsValid;
     parse := engineParse;
     defaultTimeZone := "browser" |}.

Definition world : Env Stamp Z := worldWith zones.

(** The same world without any zone data. *)
Definition bareWorld : Env Stamp Z := worldWith (fun _ => None).

Definition unnamedWorld : Env Stamp Z := worldWith unnamedZones.

Definition inZone (tz : string) : option DateTimeOptionsWhenParsing :=
  Some {| timeZone := Some tz; roundUp := None |}.

(** The world with an engine that accepts nothing and a clock of its own. *)
Definition deafWorld : Env Stamp Z :=
  {| momentNow := Evaluated "later" None None;
     moment := Local;
     momentUtc := Utc;
     momentTz := InZone;
     momentTzZone := zones;
     isValid := fun _ => false;
     parse := fun _ _ _ => None;
     defaultTimeZone := "browser" |}.

End Fixture.

(** ** Facts about [indexOf] *)

Module JsStringFacts.

Import JsString.

Lemma substring_prefix (t s : string) :
  substring 0 (String.length t) s = t -> exists after, s = t ++ after.
Proof.
  revert s; induction t as [|c t IH]; intros s H.
  - exists s. reflexivity.
  - destruct s as [|c' s']; simpl in H; [discriminate|].
    injection H as -> H. destruct (IH _ H) as [after ->].
    exists after. reflexivity.
Qed.

Lemma substring_occurrence (m : nat) (t s : string) :
  substring m (String.length t) s = t -> Contains t s.
Proof.
  revert s; induction m as [|m IH]; intros s H.
  - destruct (substring_prefix _ _ H) as [after ->].
    exists "", after. reflexivity.
  - destruct s as [|c s'].
    + destruct t; simpl in H; [|discriminate].
      exists "", "". reflexivity.
    + simpl in H. destruct (IH _ H) as (before & after & ->).
      exists (String c before), after. reflexivity.
Qed.

Lemma occurrence_substring (before t after : string) :
  substring (String.length before) (String.length t) (before ++ t ++ after) = t.
Proof.
  induction before as [|c before IH]; simpl.
  - induction t as [|c t IHt]; simpl.
    + destruct after; reflexivity.
    + f_equal. exact IHt.
  - exact IH.
Qed.

(** [indexOf] answers [-1] exactly when there is no occurrence. *)
Lemma indexOf_found (s t : string) :
  t <> "" -> ((indexOf s t =? -1)%Z = false <-> Contains t s).
Proof.
  intros Ht. unfold indexOf. split.
  - destruct (index 0 t s) as [m|] eqn:E.
    + intros _. apply index_correct1 in E.
      exact (substring_occurrence _ _ _ E).
    + intros H. discriminate H.
  - intros (before & after & ->).
    destruct (index 0 t (before ++ t ++ after)) as [m|] eqn:E.
    + apply Z.eqb_neq. lia.
    + exfalso.
      apply (index_correct3 0 (String.length before) _ _ E Ht (Nat.le_0_l _)).
      apply occurrence_substring.
Qed.

Lemma indexOf_now (s : string) :
  (indexOf s "now" =? -1)%Z = false <-> Contains "now" s.
Proof. apply indexOf_found. discriminate. Qed.

Lemma indexOf_no_now (s : string) :
  (indexOf s "now" =? -1)%Z = true <-> ~ Contains "now" s.
Proof.
  rewrite <- indexOf_now. destruct (indexOf s "now" =? -1)%Z; split; congruence.
Qed.

(** The position [indexOf] answers is that of an occurrence, and no
    occurrence starts before it. *)
Lemma indexOf_first (s t : string) (k : nat) :
  indexOf s t = Z.of_nat k ->
  substring k (String.length t) s = t /\
  forall j, j < k -> substring j (String.length t) s <> t.
Proof.
  unfold indexOf. destruct (index 0 t s) as [m|] eqn:E; [|lia].
  intros H. assert (m = k) as -> by lia. split.
  - exact (index_correct1 _ _ _ _ E).
  - intros j Hj. exact (index_correct2 _ _ _ _ E j (Nat.le_0_l _) Hj).
Qed.

End JsStringFacts.

(** ** Facts about the parser *)

Section ParserFacts.

Context {DateTime Other : Type}.

Local Abbreviation Input := (DateTimeInput DateTime Other).

Implicit Types (env : Env DateTime Other) (value : Input)
  (options : option DateTimeOptionsWhenParsing).

Local Ltac unfold_js :=
  unfold run, parseOthers, getTimeZone, zoneAndName, zoneName, bind, call,
    ret, throw, effectiveTimeZone, lookupCalls in *.

(** [dateTimeParse] hands a string to [parseString]. *)
Lemma dateTimeParse_string env s options :
  run (dateTimeParse (InString s) options) env
  = run (parseString s options) env.
Proof. reflexivity. Qed.

(** [parseString] on a string without ["now"] is [parseOthers]. *)
Lemma parseString_generic env s options :
  ~ JsString.Contains "now" s ->
  run (parseString s options) env
  = run (parseOthers (InString s) options) env.
Proof.
  intros H. apply JsStringFacts.indexOf_no_now in H.
  unfold parseString. rewrite H. reflexivity.
Qed.

(** [dateTimeParse] on the generic path is [parseOthers]. *)
Lemma dateTimeParse_generic env value options :
  OnGenericPath value ->
  run (dateTimeParse value options) env = run (parseOthers value options) env.
Proof.
  destruct value as [d|s|x]; intros H.
  - contradiction.
  - rewrite dateTimeParse_string. now apply parseString_generic.
  - reflexivity.
Qed.

(** [parseString] on a string with ["now"] asks the engine. *)
Lemma parseString_relative env s options :
  JsString.Contains "now" s ->
  run (parseString s options) env
  = if isValid env s then
      match parse env s (optRoundUp options) (optTimeZone options) with
      | Some d =>
          (Normal d,
           [CallIsValid s;
            CallParse s (optRoundUp options) (optTimeZone options)])
      | None =>
          (Normal (momentNow env),
           [CallIsValid s;
            CallParse s (optRoundUp options) (optTimeZone options);
            CallMomentNow])
      end
    else (Normal (momentNow env), [CallIsValid s; CallMomentNow]).
Proof.
  intros H. apply JsStringFacts.indexOf_now in H.
  unfold parseString. rewrite H. unfold run, bind, call, ret. simpl.
  destruct (isValid env s); simpl; [|reflexivity].
  destruct (parse env s _ _); reflexivity.
Qed.

(** The three ways [parseOthers] ends. *)
Lemma parseOthers_in_zone env value options z :
  momentTzZone env (effectiveTimeZone env options) = Some z ->
  name z <> "" ->
  run (parseOthers value options) env
  = (Normal (momentTz env value (name z)),
     (lookupCalls env options ++ [CallMomentTz value (name z)])%list).
Proof.
  intros Hz Hn. apply String.eqb_neq in Hn. unfold_js.
  destruct (optTimeZone options) as [tz|]; simpl in *;
    rewrite Hz; simpl; rewrite Hn; reflexivity.
Qed.

Lemma parseOthers_utc env value options :
  (forall z, momentTzZone env (effectiveTimeZone env options) = Some z ->
             name z = "") ->
  Lodash.lowerCase (effectiveTimeZone env options) = "utc" ->
  run (parseOthers value options) env
  = (Normal (momentUtc env value),
     (lookupCalls env options ++ [CallMomentUtc value])%list).
Proof.
  intros Hz Hl. unfold_js.
  destruct (optTimeZone options) as [tz|]; simpl in *;
    (destruct (momentTzZone env _) as [z|] eqn:E; simpl;
     [rewrite (Hz z eq_refl); simpl|]); rewrite Hl; reflexivity.
Qed.

Lemma parseOthers_local env value options :
  (forall z, momentTzZone env (effectiveTimeZone env options) = Some z ->
             name z = "") ->
  Lodash.lowerCase (effectiveTimeZone env options) <> "utc" ->
  run (parseOthers value options) env
  = (Normal (moment env value),
     (lookupCalls env options ++ [CallMoment value])%list).
Proof.
  intros Hz Hl. apply String.eqb_neq in Hl. unfold_js.
  destruct (optTimeZone options) as [tz|]; simpl in *;
    (destruct (momentTzZone env _) as [z|] eqn:E; simpl;
     [rewrite (Hz z eq_refl); simpl|]); rewrite Hl; reflexivity.
Qed.

(** A zone lookup ends in exactly one of two ways. *)
Lemma zone_cases env tz :
  (exists z, momentTzZone env tz = Some z /\ name z <> "")
  \/ (forall z, momentTzZone env tz = Some z -> name z = "").
Proof.
  destruct (momentTzZone env tz) as [z|].
  - destruct (string_dec (name z) "") as [E|E].
    + right. intros z' [= <-]. exact E.
    + left. exists z. split; [reflexivity|exact E].
  - right. intros z [=].
Qed.

(** [parseOthers] never asks the engine. *)
Lemma parseOthers_no_engine env value options :
  consultsEngine (snd (run (parseOthers value options) env)) = false.
Proof.
  destruct (zone_cases env (effectiveTimeZone env options)) as [(z & Hz & Hn)|Hz].
  - rewrite (parseOthers_in_zone _ _ _ _ Hz Hn).
    unfold lookupCalls. destruct (optTimeZone options); reflexivity.
  - destruct (string_dec (Lodash.lowerCase (effectiveTimeZone env options)) "utc")
      as [Hl|Hl].
    + rewrite (parseOthers_utc _ _ _ Hz Hl).
      unfold lookupCalls. destruct (optTimeZone options); reflexivity.
    + rewrite (parseOthers_local _ _ _ Hz Hl).
      unfold lookupCalls. destruct (optTimeZone options); reflexivity.
Qed.

(** [parseOthers] reads nothing of its options but the time zone. *)
Lemma parseOthers_options env value options options' :
  optTimeZone options = optTimeZone options' ->
  run (parseOthers value options) env = run (parseOthers value options') env.
Proof.
  intros H. unfold run, parseOthers, getTimeZone. rewrite H. reflexivity.
Qed.

End ParserFacts.

(** ** Which zone strings [lowerCase] reduces to ["utc"] *)
Module NormalisationFacts.

Import Lodash.
Local Open Scope list_scope.

(** Classes of code units. *)
Lemma class_cases (c : ascii) :
  rsBreak c = true \/ rsLower c = true \/ rsUpper c = true \/ digit c = true.
Proof.
  destruct c as [[] [] [] [] [] [] [] []]; vm_compute; tauto.
Qed.

Lemma break_facts (c : ascii) :
  rsBreak c = true ->
  rsLower c = false /\ rsUpper c = false /\ digit c = false.
Proof.
  destruct c as [[] [] [] [] [] [] [] []]; intros H;
    try discriminate H; repeat split; reflexivity.
Qed.

Lemma toLowerCase_u (c : ascii) :
  toLowerCase c = "u"%char -> c = "u"%char \/ c = "U"%char.
Proof.
  destruct c as [[] [] [] [] [] [] [] []]; intros H;
    try discriminate H; auto.
Qed.

Lemma toLowerCase_t (c : ascii) :
  toLowerCase c = "t"%char -> c = "t"%char \/ c = "T"%char.
Proof.
  destruct c as [[] [] [] [] [] [] [] []]; intros H;
    try discriminate H; auto.
Qed.

Lemma toLowerCase_c (c : ascii) :
  toLowerCase c = "c"%char -> c = "c"%char \/ c = "C"%char.
Proof.
  destruct c as [[] [] [] [] [] [] [] []]; intros H;
    try discriminate H; auto.
Qed.

(** The greedy quantifier. *)
Lemma greedy_first (lo hi : nat) (k : nat -> option nat) (r : nat) :
  lo <= hi -> k hi = Some r -> greedy lo hi k = Some r.
Proof.
  intros Hle Hk. destruct hi as [|h]; simpl.
  - destruct lo; [|lia]. simpl. now rewrite Hk.
  - destruct (Nat.ltb_spec (S h) lo) as [Hlt|_]; [lia|]. now rewrite Hk.
Qed.

Lemma greedy_inv (lo hi : nat) (k : nat -> option nat) (r : nat) :
  greedy lo hi k = Some r -> exists j, lo <= j /\ j <= hi /\ k j = Some r.
Proof.
  induction hi as [|h IH]; simpl.
  - destruct (Nat.ltb_spec 0 lo) as [Hlt|Hge]; [discriminate|].
    destruct (k 0) eqn:E; [|discriminate]. intros [= <-].
    exists 0. repeat split; [lia|lia|exact E].
  - destruct (Nat.ltb_spec (S h) lo) as [Hlt|Hge]; [discriminate|].
    destruct (k (S h)) eqn:E.
    + intros [= <-]. exists (S h). repeat split; [lia|lia|exact E].
    + intros H. destruct (IH H) as (j & H1 & H2 & H3).
      exists j. repeat split; [lia|lia|exact H3].
Qed.

Lemma greedy_empty (lo hi : nat) (k : nat -> option nat) :
  hi < lo -> greedy lo hi k = None.
Proof.
  intros H. destruct hi as [|h]; simpl.
  - destruct (Nat.ltb_spec 0 lo) as [_|Hge]; [reflexivity|lia].
  - destruct (Nat.ltb_spec (S h) lo) as [_|Hge]; [reflexivity|lia].
Qed.

(** Every alternative of [reUnicodeWord] consumes at least one code unit. *)
Lemma plus_inv p s from k r :
  plus p s from k = Some r -> exists j, 1 <= j /\ k (from + j) = Some r.
Proof.
  unfold plus. intros H. destruct (greedy_inv _ _ _ _ H) as (j & H1 & _ & H3).
  now exists j.
Qed.

Lemma lookahead_inv la s j r : lookahead la s j = Some r -> r = j.
Proof. unfold lookahead. destruct (la _); congruence. Qed.

Lemma alternatives_consume (s : list ascii) (r : nat) :
  In (Some r) (unicodeWordAlternatives s) -> 1 <= r.
Proof.
  unfold unicodeWordAlternatives. simpl.
  intros [H|[H|[H|[H|[H|[H|[H|[]]]]]]]].
  - unfold optional in H. destruct (greedy_inv _ _ _ _ H) as (i & _ & _ & Hi).
    destruct (plus_inv _ _ _ _ _ Hi) as (j & Hj & Hl).
    apply lookahead_inv in Hl. lia.
  - destruct (plus_inv _ _ _ _ _ H) as (j & Hj & Hl).
    apply lookahead_inv in Hl. lia.
  - unfold optional in H. destruct (greedy_inv _ _ _ _ H) as (i & _ & _ & Hi).
    destruct (plus_inv _ _ _ _ _ Hi) as (j & Hj & [= <-]). lia.
  - destruct (plus_inv _ _ _ _ _ H) as (j & Hj & [= <-]). lia.
  - unfold rsOrd, star in H.
    destruct (greedy_inv _ _ _ _ H) as (i & _ & _ & Hi).
    destruct (ordinal true _); [|discriminate].
    apply lookahead_inv in Hi. lia.
  - unfold rsOrd, star in H.
    destruct (greedy_inv _ _ _ _ H) as (i & _ & _ & Hi).
    destruct (ordinal false _); [|discriminate].
    apply lookahead_inv in Hi. lia.
  - destruct (plus_inv _ _ _ _ _ H) as (j & Hj & [= <-]). lia.
Qed.

Lemma firstMatch_in (alts : list (option nat)) (r : nat) :
  firstMatch alts = Some r -> In (Some r) alts.
Proof.
  induction alts as [|[x|] alts IH]; simpl; [discriminate| |].
  - intros [= <-]. now left.
  - intros H. right. now apply IH.
Qed.

Lemma firstMatch_none (alts : list (option nat)) (r : nat) :
  firstMatch alts = None -> ~ In (Some r) alts.
Proof.
  induction alts as [|[x|] alts IH]; simpl; [tauto|discriminate|].
  intros H [E|E]; [discriminate|]. now apply IH.
Qed.


(** A break is never the start of a word. *)
Lemma unicodeWordAt_break (c : ascii) (t : list ascii) :
  rsBreak c = true -> unicodeWordAt (c :: t) = None.
Proof.
  destruct c as [[] [] [] [] [] [] [] []]; intros H; try discriminate H;
    destruct t as [|x [|y r]]; vm_compute; reflexivity.
Qed.

Lemma span_head p (c : ascii) t : p c = true -> span p (c :: t) = S (span p t).
Proof. intros H. simpl. now rewrite H. Qed.

Lemma span_stop p (c : ascii) t : p c = false -> span p (c :: t) = 0.
Proof. intros H. simpl. now rewrite H. Qed.

(** A letter or a digit always starts a word. *)
Lemma unicodeWordAt_word (c : ascii) (t : list ascii) :
  rsBreak c = false -> exists n, unicodeWordAt (c :: t) = Some (S n).
Proof.
  intros Hb.
  assert (Hsome : exists r, In (Some r) (unicodeWordAlternatives (c :: t))).
  { destruct (class_cases c) as [H|[H|[H|H]]]; [congruence| | |].
    - exists (S (span rsLower t)). unfold unicodeWordAlternatives.
      right; right; left. unfold optional.
      assert (Hu : rsUpper c = false).
      { destruct c as [[] [] [] [] [] [] [] []]; try discriminate H; reflexivity. }
      rewrite (span_stop _ _ _ Hu). simpl Nat.min.
      apply greedy_first; [lia|]. unfold plus. simpl skipn.
      rewrite (span_head _ _ _ H). apply greedy_first; [lia|reflexivity].
    - exists (S (span rsUpper t)). unfold unicodeWordAlternatives.
      right; right; right; left. unfold plus. simpl skipn.
      rewrite (span_head _ _ _ H). apply greedy_first; [lia|reflexivity].
    - exists (S (span digit t)). unfold unicodeWordAlternatives.
      do 6 right; left. unfold plus. simpl skipn.
      rewrite (span_head _ _ _ H). apply greedy_first; [lia|reflexivity]. }
  destruct Hsome as (r & Hr). unfold unicodeWordAt.
  destruct (firstMatch (unicodeWordAlternatives (c :: t))) as [m|] eqn:E.
  - pose proof (alternatives_consume _ _ (firstMatch_in _ _ E)) as Hm.
    destruct m as [|n]; [lia|]. now exists n.
  - exfalso. exact (firstMatch_none _ r E Hr).
Qed.

(** Breaks between words are passed over. *)
Lemma unicodeWordsFrom_break (c : ascii) (t : list ascii) :
  rsBreak c = true -> unicodeWordsFrom 0 (c :: t) = unicodeWordsFrom 0 t.
Proof.
  intros H. cbn [unicodeWordsFrom]. now rewrite (unicodeWordAt_break _ _ H).
Qed.

Lemma unicodeWordsFrom_dropBreaks (s : list ascii) :
  unicodeWordsFrom 0 s = unicodeWordsFrom 0 (dropBreaks s).
Proof.
  induction s as [|c t IH]; [reflexivity|]. simpl dropBreaks.
  destruct (rsBreak c) eqn:E; [|reflexivity].
  now rewrite (unicodeWordsFrom_break _ _ E).
Qed.

Lemma unicodeWordsFrom_breaks (r : list ascii) :
  forallb rsBreak r = true -> unicodeWordsFrom 0 r = [].
Proof.
  induction r as [|c t IH]; [reflexivity|]. simpl forallb.
  intros H. apply andb_true_iff in H as [Hc Ht].
  rewrite (unicodeWordsFrom_break _ _ Hc). now apply IH.
Qed.

Lemma unicodeWordsFrom_nil (r : list ascii) :
  unicodeWordsFrom 0 r = [] -> forallb rsBreak r = true.
Proof.
  induction r as [|c t IH]; [reflexivity|]. simpl forallb.
  destruct (rsBreak c) eqn:E.
  - rewrite (unicodeWordsFrom_break _ _ E). exact IH.
  - destruct (unicodeWordAt_word c t E) as (n & Hn).
    cbn [unicodeWordsFrom]. rewrite Hn. discriminate.
Qed.

(** The words joined by [compound]. *)
Lemma compound_single (w : list ascii) (ws : list (list ascii)) :
  compound 0 (w :: ws) = utc -> ws = [] /\ map toLowerCase w = utc.
Proof.
  cbn [compound]. rewrite app_nil_l. destruct ws as [|w' ws'].
  - cbn [compound]. rewrite app_nil_r. now split.
  - cbn [compound]. intros H. exfalso.
    assert (Hin : In " "%char utc).
    { rewrite <- H. apply in_or_app. right. now left. }
    unfold utc in Hin. simpl in Hin. intuition discriminate.
Qed.

Lemma casings (a b c : ascii) :
  map toLowerCase [a; b; c] = utc ->
  (a = "u" \/ a = "U")%char /\ (b = "t" \/ b = "T")%char
  /\ (c = "c" \/ c = "C")%char.
Proof.
  unfold utc. simpl. intros [= Ha Hb Hc].
  auto using toLowerCase_u, toLowerCase_t, toLowerCase_c.
Qed.

(** The first word of a text that starts with a casing of ["utc"] followed
    by breaks only: the whole casing for the three plain spellings, less for
    the five others. *)
Lemma unicodeWordAt_casing (a b c : ascii) (post : list ascii) :
  map toLowerCase [a; b; c] = utc ->
  forallb rsBreak post = true ->
  (utcSpelling a b c = true /\ unicodeWordAt (a :: b :: c :: post) = Some 3)
  \/ (utcSpelling a b c = false
      /\ exists m, m < 3 /\ unicodeWordAt (a :: b :: c :: post) = Some m).
Proof.
  intros Hc Hpost.
  assert (Hd : post = [] \/ exists d r, post = d :: r /\ rsBreak d = true).
  { destruct post as [|d r]; [now left|right]. simpl in Hpost.
    apply andb_true_iff in Hpost as [Hd _]. now exists d, r. }
  clear Hpost.
  destruct (casings _ _ _ Hc) as ([-> | ->] & [-> | ->] & [-> | ->]);
    (destruct Hd as [-> | (d & r & -> & Hd)];
     [ vm_compute;
       first [ left; split; reflexivity
             | right; split; [reflexivity|];
               first [ exists 1; split; [lia|reflexivity]
                     | exists 2; split; [lia|reflexivity] ] ]
     | destruct d as [[] [] [] [] [] [] [] []]; try discriminate Hd;
       vm_compute;
       first [ left; split; reflexivity
             | right; split; [reflexivity|];
               first [ exists 1; split; [lia|reflexivity]
                     | exists 2; split; [lia|reflexivity] ] ] ]).
Qed.

Lemma dropBreaks_head (s : list ascii) (a : ascii) (r : list ascii) :
  dropBreaks s = a :: r -> rsBreak a = false.
Proof.
  induction s as [|c t IH]; simpl; [discriminate|].
  destruct (rsBreak c) eqn:E; [exact IH|]. now intros [= <- _].
Qed.

Lemma dropBreaks_forallb (p : ascii -> bool) (s : list ascii) :
  forallb p s = true -> forallb p (dropBreaks s) = true.
Proof.
  induction s as [|c t IH]; simpl; [reflexivity|].
  intros H. destruct (rsBreak c); [|exact H].
  apply andb_true_iff in H as [_ H]. now apply IH.
Qed.

Lemma utcSpelling_cases (a b c : ascii) :
  utcSpelling a b c = true ->
  [a; b; c] = list_ascii_of_string "utc"
  \/ [a; b; c] = list_ascii_of_string "Utc"
  \/ [a; b; c] = list_ascii_of_string "UTC".
Proof.
  unfold utcSpelling. cbn [existsb]. rewrite orb_false_r, !orb_true_iff.
  intros [H|[H|H]]; apply String.eqb_eq in H; injection H as -> -> ->; auto.
Qed.

Lemma utcSpelling_lower (a b c : ascii) :
  utcSpelling a b c = true -> map toLowerCase [a; b; c] = utc.
Proof.
  intros H. destruct (utcSpelling_cases _ _ _ H) as [E|[E|E]];
    injection E as -> -> ->; reflexivity.
Qed.

(** The words of [unicodeWords] give ["utc"] exactly for a plain spelling
    of the word between breaks. *)
Lemma unicodeWords_utc (s : list ascii) :
  compound 0 (unicodeWords s) = utc <-> utcShape s = true.
Proof.
  unfold unicodeWords, utcShape. rewrite unicodeWordsFrom_dropBreaks.
  destruct (dropBreaks s) as [|a rest0] eqn:Ebody.
  - simpl. split; discriminate.
  - pose proof (dropBreaks_head _ _ _ Ebody) as Ha.
    destruct (unicodeWordAt_word a rest0 Ha) as (n & Hn).
    cbn [unicodeWordsFrom]. rewrite Hn. split.
    + intros H. apply compound_single in H as [Hws Hw].
      destruct rest0 as [|b [|c post]].
      * simpl in Hw. rewrite firstn_nil in Hw. discriminate.
      * destruct n; simpl in Hw; [discriminate|].
        rewrite firstn_nil in Hw. discriminate.
      * destruct n as [|[|[|n]]]; simpl in Hw; try discriminate Hw.
        -- cbn [unicodeWordsFrom] in Hws.
           pose proof (unicodeWordsFrom_nil _ Hws) as Hpost.
           destruct (unicodeWordAt_casing a b c post Hw Hpost)
             as [[Hs _]|[_ (m & Hm & Hat)]].
           ++ now rewrite Hs, Hpost.
           ++ rewrite Hat in Hn. injection Hn as ->. lia.
        -- destruct post as [|d r]; [|discriminate Hw].
           destruct (unicodeWordAt_casing a b c [] Hw eq_refl)
             as [[_ Hat]|[_ (m & Hm & Hat)]];
             rewrite Hat in Hn; injection Hn as Hn; lia.
    + intros H. destruct rest0 as [|b [|c post]]; try discriminate H.
      apply andb_true_iff in H as [Hs Hpost].
      pose proof (utcSpelling_lower _ _ _ Hs) as Hw.
      destruct (unicodeWordAt_casing a b c post Hw Hpost)
        as [[_ Hat]|[Hs' _]]; [|congruence].
      rewrite Hat in Hn. injection Hn as <-.
      cbn [unicodeWordsFrom firstn].
      rewrite (unicodeWordsFrom_breaks _ Hpost).
      cbn [compound]. rewrite app_nil_l, app_nil_r. exact Hw.
Qed.


Lemma plain_wordChar (c : ascii) :
  plain c = true -> asciiWordChar c = negb (rsBreak c).
Proof.
  destruct c as [[] [] [] [] [] [] [] []]; intros H;
    try discriminate H; reflexivity.
Qed.

Lemma hasUnicodeWord_plain (s : list ascii) :
  hasUnicodeWord s = false -> forallb plain s = true.
Proof.
  induction s as [|a t IH]; [reflexivity|].
  cbn [hasUnicodeWord forallb]. intros H.
  apply orb_false_iff in H as [Hat Ht]. rewrite (IH Ht), andb_true_r.
  unfold hasUnicodeWordAt in Hat. apply orb_false_iff in Hat as [Hat _].
  apply negb_false_iff in Hat. exact Hat.
Qed.

Lemma hasUnicodeWord_dropBreaks (s : list ascii) :
  hasUnicodeWord s = false -> hasUnicodeWord (dropBreaks s) = false.
Proof.
  induction s as [|c t IH]; [reflexivity|]. intros H. simpl dropBreaks.
  destruct (rsBreak c); [|exact H].
  cbn [hasUnicodeWord] in H. apply orb_false_iff in H as [_ H]. now apply IH.
Qed.

Lemma asciiWordsFrom_dropBreaks (s : list ascii) :
  forallb plain s = true ->
  asciiWordsFrom [] s = asciiWordsFrom [] (dropBreaks s).
Proof.
  induction s as [|c t IH]; [reflexivity|]. cbn [forallb]. intros H.
  apply andb_true_iff in H as [Hc Ht]. simpl dropBreaks.
  destruct (rsBreak c) eqn:E; [|reflexivity].
  cbn [asciiWordsFrom]. rewrite (plain_wordChar _ Hc), E. simpl. now apply IH.
Qed.

(** The word in progress ends at the first code unit that is no word
    character. *)
Lemma asciiWordsFrom_first (s cur : list ascii) :
  cur <> [] ->
  exists w ws,
    asciiWordsFrom cur s = (cur ++ w) :: ws
    /\ ((s = w /\ ws = [])
        \/ exists d t,
             s = w ++ d :: t /\ asciiWordChar d = false
             /\ ws = asciiWordsFrom [] t).
Proof.
  revert cur; induction s as [|c t IH]; intros cur Hcur.
  - exists [], []. rewrite app_nil_r. split; [|now left].
    destruct cur; [contradiction|reflexivity].
  - cbn [asciiWordsFrom]. destruct (asciiWordChar c) eqn:E.
    + destruct (IH (cur ++ [c])) as (w & ws & Hw & Hs);
        [now destruct cur|].
      exists (c :: w), ws. rewrite Hw, <- app_assoc. split; [reflexivity|].
      destruct Hs as [[-> ->]|(d & t' & -> & Hd & ->)]; [now left|right].
      now exists d, t'.
    + exists [], (asciiWordsFrom [] t). rewrite app_nil_r. split.
      * destruct cur; [contradiction|reflexivity].
      * right. now exists c, t.
Qed.

Lemma asciiWordsFrom_nil (t : list ascii) :
  asciiWordsFrom [] t = [] ->
  forallb (fun c => negb (asciiWordChar c)) t = true.
Proof.
  induction t as [|c t IH]; [reflexivity|].
  cbn [asciiWordsFrom forallb]. destruct (asciiWordChar c) eqn:E.
  - destruct (asciiWordsFrom_first t ([] ++ [c])) as (w & ws & Hw & _);
      [discriminate|]. rewrite Hw. discriminate.
  - simpl. exact IH.
Qed.

Lemma asciiWordsFrom_gap (post cur : list ascii) :
  forallb (fun c => negb (asciiWordChar c)) post = true ->
  asciiWordsFrom cur post = flush cur.
Proof.
  revert cur; induction post as [|d t IH]; intros cur; [reflexivity|].
  cbn [forallb asciiWordsFrom]. intros H.
  apply andb_true_iff in H as [Hd Ht]. apply negb_true_iff in Hd.
  rewrite Hd, (IH [] Ht). simpl. apply app_nil_r.
Qed.

Lemma plain_gap (l : list ascii) :
  forallb plain l = true ->
  forallb (fun c => negb (asciiWordChar c)) l = forallb rsBreak l.
Proof.
  induction l as [|c l IH]; [reflexivity|]. cbn [forallb]. intros H.
  apply andb_true_iff in H as [Hc Hl].
  now rewrite (plain_wordChar _ Hc), negb_involutive, (IH Hl).
Qed.

(** Among the casings of ["utc"], only the plain spellings do without
    [unicodeWords]. *)
Lemma plain_spelling (a b c : ascii) (post : list ascii) :
  map toLowerCase [a; b; c] = utc ->
  hasUnicodeWord (a :: b :: c :: post) = false ->
  utcSpelling a b c = true.
Proof.
  intros Hc H.
  destruct (casings _ _ _ Hc) as ([-> | ->] & [-> | ->] & [-> | ->]);
    first [ reflexivity | exfalso; vm_compute in H; discriminate H ].
Qed.

(** The words of [asciiWords] give ["utc"] exactly for a plain spelling of
    the word between breaks. *)
Lemma asciiWords_utc (s : list ascii) :
  hasUnicodeWord s = false ->
  (compound 0 (asciiWords s) = utc <-> utcShape s = true).
Proof.
  intros Hu. pose proof (hasUnicodeWord_plain _ Hu) as Hplain.
  unfold asciiWords, utcShape. rewrite (asciiWordsFrom_dropBreaks _ Hplain).
  apply hasUnicodeWord_dropBreaks in Hu.
  apply (dropBreaks_forallb plain) in Hplain.
  destruct (dropBreaks s) as [|a rest0] eqn:Ebody.
  - simpl. split; discriminate.
  - pose proof (dropBreaks_head _ _ _ Ebody) as Ha.
    cbn [forallb] in Hplain. apply andb_true_iff in Hplain as [Hpa Hprest].
    cbn [asciiWordsFrom]. rewrite (plain_wordChar _ Hpa), Ha. cbn [negb].
    split.
    + intros H.
      destruct (asciiWordsFrom_first rest0 ([] ++ [a]))
        as (w & ws & Hw & Hs); [discriminate|].
      rewrite Hw in H. apply compound_single in H as [-> Hlow].
      destruct w as [|b [|c [|d w]]]; try discriminate Hlow.
      simpl app in Hlow.
      destruct Hs as [[-> _]|(d & t & -> & Hd & Ht)].
      * cbv iota. now rewrite (plain_spelling _ _ _ _ Hlow Hu).
      * simpl app. simpl app in Hu. cbv iota.
        rewrite (plain_spelling _ _ _ _ Hlow Hu).
        simpl app in Hprest. cbn [forallb] in Hprest.
        apply andb_true_iff in Hprest as [_ Hprest].
        apply andb_true_iff in Hprest as [_ Hprest].
        rewrite <- (plain_gap (d :: t) Hprest). cbn [forallb].
        rewrite Hd. simpl. symmetry in Ht. now apply asciiWordsFrom_nil.
    + intros H. destruct rest0 as [|b [|c post]]; try discriminate H.
      apply andb_true_iff in H as [Hs Hpost].
      cbn [forallb] in Hprest.
      apply andb_true_iff in Hprest as [_ Hprest].
      apply andb_true_iff in Hprest as [_ Hprest].
      rewrite <- (plain_gap post Hprest) in Hpost.
      destruct (utcSpelling_cases _ _ _ Hs) as [E|[E|E]];
        injection E as -> -> ->; cbn [asciiWordsFrom];
        change (asciiWordChar "t") with true;
        change (asciiWordChar "c") with true;
        change (asciiWordChar "T") with true;
        change (asciiWordChar "C") with true;
        cbn iota; rewrite (asciiWordsFrom_gap _ _ Hpost); reflexivity.
Qed.

(** [lowerCase] answers ["utc"] exactly for the texts that [utcWord]
    accepts. *)
Lemma lowerCase_utc (tz : string) :
  Lodash.lowerCase tz = "utc" <-> utcWord tz = true.
Proof.
  unfold Lodash.lowerCase, utcWord, cleaned.
  set (s := filter _ _).
  assert (Hwords : compound 0 (words s) = utc <-> utcShape s = true).
  { unfold words. destruct (hasUnicodeWord s) eqn:E.
    - apply unicodeWords_utc.
    - now apply asciiWords_utc. }
  rewrite <- Hwords. split; intros H.
  - apply (f_equal list_ascii_of_string) in H.
    now rewrite list_ascii_of_string_of_list_ascii in H.
  - now rewrite H.
Qed.

End NormalisationFacts.

(** ** The properties of [dateTimeParse] *)

Section Properties.

Context {DateTime Other : Type}.

Local Abbreviation Input := (DateTimeInput DateTime Other).

Implicit Types (env : Env DateTime Other) (value : Input)
  (options : option DateTimeOptionsWhenParsing).

(** The branches of [Resolves] exclude one another: an input resolves to at
    most one instant. *)
Lemma Resolves_functional env options value d d' :
  Resolves env options value d -> Resolves env options value d' -> d = d'.
Proof.
  intros H H'.
  destruct H; inversion H'; subst; simpl in *;
    try reflexivity; try contradiction; try congruence.
  all: exfalso;
    match goal with
    | Hall : forall z, _ -> name z = "",
      Hz : momentTzZone _ _ = Some ?z, Hn : name ?z <> "" |- _ =>
        exact (Hn (Hall z Hz))
    end.
Qed.


(** C2.  A string that contains ["now"] and that the engine's [isValid]
    rejects resolves to [moment()], the current instant; the run ends
    normally after the validity check and the reading of the clock. *)
Theorem invalid_expression_resolves_to_now env s options :
  JsString.Contains "now" s ->
  isValid env s = false ->
  run (dateTimeParse (InString s) options) env
  = (Normal (momentNow env), [CallIsValid s; CallMomentNow]).
Proof.
  intros Hnow Hvalid.
  rewrite dateTimeParse_string, (parseString_relative _ _ _ Hnow), Hvalid.
  reflexivity.
Qed.

(** C3, as amended.  [parseOthers] looks the effective zone up before it
    constructs anything.  A zone that is found and has a name gives
    [moment.tz(date, zone.name)].  The literal-match fallback applies exactly
    when the lookup fails or the zone found has an empty name, and then gives
    [moment.utc(date)] or [moment(date)]. *)
Theorem zone_lookup_then_fallback env value options :
  let tz := effectiveTimeZone env options in
  let outcome := run (parseOthers value options) env in
  (exists construction,
     snd outcome = (lookupCalls env options ++ [construction])%list)
  /\ (forall z,
        momentTzZone env tz = Some z -> name z <> "" ->
        outcome = (Normal (momentTz env value (name z)),
                   (lookupCalls env options
                    ++ [CallMomentTz value (name z)])%list))
  /\ (usesFallback (snd outcome) = true <->
      momentTzZone env tz = None
      \/ momentTzZone env tz = Some {| name := "" |})
  /\ (usesFallback (snd outcome) = true ->
      outcome
      = if (Lodash.lowerCase tz =? "utc")%string
        then (Normal (momentUtc env value),
              (lookupCalls env options ++ [CallMomentUtc value])%list)
        else (Normal (moment env value),
              (lookupCalls env options ++ [CallMoment value])%list)).
Proof.
  intros tz outcome. subst outcome.
  assert (Hlookup : forall c,
            usesFallback (lookupCalls env options ++ [c])%list
            = isFallbackCall c).
  { intros c. unfold lookupCalls.
    destruct (optTimeZone options); simpl; apply orb_false_r. }
  destruct (zone_cases env tz) as [(z & Hz & Hn)|Hz].
  - rewrite (parseOthers_in_zone _ _ _ _ Hz Hn). simpl.
    rewrite Hlookup. simpl. repeat split.
    + eexists. reflexivity.
    + intros z' Hz' _. rewrite Hz in Hz'. injection Hz' as <-. reflexivity.
    + discriminate.
    + intros [E|E]; rewrite Hz in E; [discriminate|].
      injection E as ->. now contradiction Hn.
    + discriminate.
  - assert (Hblank : momentTzZone env tz = None
                     \/ momentTzZone env tz = Some {| name := "" |}).
    { destruct (momentTzZone env tz) as [[n]|] eqn:E; [right|now left].
      specialize (Hz _ eq_refl). simpl in Hz. now subst n. }
    destruct (Lodash.lowerCase tz =? "utc")%string eqn:El.
    + apply String.eqb_eq in El.
      rewrite (parseOthers_utc _ _ _ Hz El). simpl. rewrite Hlookup.
      repeat split; try (intros; assumption).
      * eexists. reflexivity.
      * intros z Ez Hn. now rewrite (Hz z Ez) in Hn.
    + apply String.eqb_neq in El.
      rewrite (parseOthers_local _ _ _ Hz El). simpl. rewrite Hlookup.
      repeat split; try (intros; assumption).
      * eexists. reflexivity.
      * intros z Ez Hn. now rewrite (Hz z Ez) in Hn.
Qed.

(** C4.  A value that is already a [DateTime] is returned as it is, whatever
    the options: the run ends normally and calls nothing. *)
Theorem instant_passthrough env (d : DateTime) options :
  run (dateTimeParse (InDateTime d) options) env = (Normal d, []).
Proof. reflexivity. Qed.

(** C5.  A string that contains ["now"], passes [isValid] and for which
    [parse] answers nothing resolves to [moment()], the current instant. *)
Theorem unevaluated_expression_resolves_to_now env s options :
  JsString.Contains "now" s ->
  isValid env s = true ->
  parse env s (optRoundUp options) (optTimeZone options) = None ->
  run (dateTimeParse (InString s) options) env
  = (Normal (momentNow env),
     [CallIsValid s;
      CallParse s (optRoundUp options) (optTimeZone options);
      CallMomentNow]).
Proof.
  intros Hnow Hvalid Hparse.
  rewrite dateTimeParse_string, (parseString_relative _ _ _ Hnow), Hvalid, Hparse.
  reflexivity.
Qed.

(** C7, as amended.  An input on the generic path whose effective zone is
    not in the zone database and is no spelling of ["utc"] (not ["utc"],
    ["Utc"] or ["UTC"] between separators, accents and apostrophes set
    aside) is read by [moment(date)], in the local zone: the run ends
    normally and [moment.utc] is not called. *)
Theorem unknown_zone_is_read_locally env value options :
  OnGenericPath value ->
  momentTzZone env (effectiveTimeZone env options) = None ->
  utcWord (effectiveTimeZone env options) = false ->
  run (dateTimeParse value options) env
  = (Normal (moment env value),
     (lookupCalls env options ++ [CallMoment value])%list)
  /\ forall date,
       ~ In (CallMomentUtc date) (snd (run (dateTimeParse value options) env)).
Proof.
  intros Hpath Hzone Hname.
  assert (E : run (dateTimeParse value options) env
              = (Normal (moment env value),
                 (lookupCalls env options ++ [CallMoment value])%list)).
  { rewrite (dateTimeParse_generic _ _ _ Hpath).
    apply parseOthers_local.
    - intros z Hz. rewrite Hzone in Hz. discriminate.
    - intros Hl. apply NormalisationFacts.lowerCase_utc in Hl. congruence. }
  split; [exact E|].
  intros date. rewrite E. simpl. unfold lookupCalls.
  destruct (optTimeZone options); simpl; intuition discriminate.
Qed.

(** C8.  [dateTimeParse] is total and never throws: for every input and all
    options the run ends normally with an instant, and that instant is the
    one of the branch of [Resolves] that the input selects. *)
Theorem dateTimeParse_total env value options :
  exists d calls,
    run (dateTimeParse value options) env = (Normal d, calls)
    /\ Resolves env options value d.
Proof.
  assert (Hgeneric : OnGenericPath value ->
            exists d calls,
              run (parseOthers value options) env = (Normal d, calls)
              /\ Resolves env options value d).
  { intros Hpath.
    destruct (zone_cases env (effectiveTimeZone env options))
      as [(z & Hz & Hn)|Hz].
    - rewrite (parseOthers_in_zone _ _ _ _ Hz Hn).
      do 2 eexists. split; [reflexivity|]. now apply ResolvesInZone.
    - destruct (string_dec (Lodash.lowerCase (effectiveTimeZone env options))
                  "utc") as [Hl|Hl].
      + rewrite (parseOthers_utc _ _ _ Hz Hl).
        do 2 eexists. split; [reflexivity|]. now apply ResolvesUtc.
      + rewrite (parseOthers_local _ _ _ Hz Hl).
        do 2 eexists. split; [reflexivity|]. now apply ResolvesLocal. }
  destruct value as [d|s|x].
  - exists d, []. split; [reflexivity|constructor].
  - rewrite dateTimeParse_string.
    destruct (JsString.indexOf s "now" =? -1)%Z eqn:E.
    + apply JsStringFacts.indexOf_no_now in E.
      rewrite (parseString_generic _ _ _ E). now apply Hgeneric.
    + apply JsStringFacts.indexOf_now in E.
      rewrite (parseString_relative _ _ _ E).
      destruct (isValid env s) eqn:Hv.
      * destruct (parse env s _ _) as [d|] eqn:Hp; do 2 eexists;
          (split; [reflexivity|]).
        -- now apply ResolvesEvaluated.
        -- now apply ResolvesUnevaluated.
      * do 2 eexists. split; [reflexivity|]. now apply ResolvesInvalid.
  - apply Hgeneric. exact I.
Qed.

(** C9.  Two calls whose options agree on the time zone, and so differ at
    most in [roundUp], run alike on every input that is a [DateTime], a
    string without ["now"] or a value that is not a string: same instant,
    same calls. *)
Theorem roundUp_only_matters_for_relative env value options options' :
  optTimeZone options = optTimeZone options' ->
  NotRelative value ->
  run (dateTimeParse value options) env
  = run (dateTimeParse value options') env.
Proof.
  intros Htz Hvalue. destruct value as [d|s|x].
  - reflexivity.
  - rewrite !dateTimeParse_string, !(parseString_generic _ _ _ Hvalue).
    now apply parseOthers_options.
  - now apply (parseOthers_options env (InOther x)).
Qed.

(** C10.  The test for ["now"] is case-sensitive: a string that contains
    another casing of the word and not ["now"] itself never reaches the
    engine and is resolved by [parseOthers]. *)
Theorem now_detection_is_case_sensitive env s options (casing : string) :
  JsString.foldCase casing = "now" ->
  JsString.Contains casing s ->
  ~ JsString.Contains "now" s ->
  consultsEngine (snd (run (dateTimeParse (InString s) options) env)) = false
  /\ run (dateTimeParse (InString s) options) env
     = run (parseOthers (InString s) options) env.
Proof.
  intros _ _ Hnow.
  rewrite dateTimeParse_string, (parseString_generic _ _ _ Hnow).
  split; [apply parseOthers_no_engine|reflexivity].
Qed.

End Properties.

(** ** The library model against lodash's documentation *)

(** The three examples of [_.lowerCase] in lodash's documentation. *)
Example lowerCase_documented :
  map Lodash.lowerCase ["--Foo-Bar--"; "fooBar"; "__FOO_BAR__"]
  = ["foo bar"; "foo bar"; "foo bar"].
Proof. reflexivity. Qed.

(** The eight casings of ["utc"]: three of them normalise to ["utc"], the
    other five are split into two words. *)
Example lowerCase_casings_of_utc :
  map Lodash.lowerCase
    ["utc"; "UTC"; "Utc"; "uTc"; "utC"; "UTc"; "uTC"; "UtC"]
  = ["utc"; "utc"; "utc"; "u tc"; "ut c"; "u tc"; "u tc"; "ut c"].
Proof. reflexivity. Qed.

(** Separators around the word are dropped, so these normalise to ["utc"]
    as well; a zone name with a slash becomes several words. *)
Example lowerCase_separators :
  map Lodash.lowerCase [" utc "; "_UTC_"; "Etc/UTC"; "Not/AZone"]
  = ["utc"; "utc"; "etc utc"; "not a zone"].
Proof. reflexivity. Qed.


(** ** The properties at work in the small world *)

Section Runs.

Local Abbreviation date := (InString "2020-06-01 12:00").

Lemma date_on_generic_path : @OnGenericPath Fixture.Stamp Z date.
Proof. apply JsStringFacts.indexOf_no_now. reflexivity. Defined.


(** ["nownownow"] is no expression of the engine. *)
Lemma invalid_expression_resolves_to_now_witness :
  JsString.Contains "now" "nownownow"
  /\ isValid Fixture.world "nownownow" = false
  /\ run (dateTimeParse (InString "nownownow") None) Fixture.world
     = (Normal Fixture.Clock, [CallIsValid "nownownow"; CallMomentNow]).
Proof.
  assert (H : JsString.Contains "now" "nownownow")
    by (exists "", "nownow"; reflexivity).
  split; [exact H|]. split; [reflexivity|].
  exact (invalid_expression_resolves_to_now Fixture.world "nownownow" None
           H eq_refl).
Defined.

(** A zone of the database is used by name. *)
Lemma zone_lookup_then_fallback_witness :
  momentTzZone Fixture.world "America/New_York"
  = Some {| name := "America/New_York" |}
  /\ run (parseOthers date (Fixture.inZone "America/New_York")) Fixture.world
     = (Normal (Fixture.InZone date "America/New_York"),
        [CallMomentTzZone "America/New_York";
         CallMomentTz date "America/New_York"]).
Proof.
  split; [reflexivity|].
  apply (proj1 (proj2 (zone_lookup_then_fallback Fixture.world date
                         (Fixture.inZone "America/New_York")))
           {| name := "America/New_York" |}).
  - reflexivity.
  - discriminate.
Defined.

(** C3, as stated, fails where the zone database answers a zone without a
    name: the lookup succeeds and the fallback constructs the instant. *)
Lemma fallback_although_zone_found :
  momentTzZone Fixture.unnamedWorld
    (effectiveTimeZone Fixture.unnamedWorld (Fixture.inZone "Etc/Unnamed"))
  = Some {| name := "" |}
  /\ run (parseOthers date (Fixture.inZone "Etc/Unnamed")) Fixture.unnamedWorld
     = (Normal (Fixture.Local date),
        [CallMomentTzZone "Etc/Unnamed"; CallMoment date])
  /\ ~ (usesFallback
          (snd (run (parseOthers date (Fixture.inZone "Etc/Unnamed"))
                  Fixture.unnamedWorld)) = true ->
        momentTzZone Fixture.unnamedWorld
          (effectiveTimeZone Fixture.unnamedWorld
             (Fixture.inZone "Etc/Unnamed")) = None).
Proof.
  split; [reflexivity|]. split; [reflexivity|].
  intros H. specialize (H eq_refl). discriminate H.
Qed.

(** ["now/fy"] passes the validity check and is not evaluated. *)
Lemma unevaluated_expression_resolves_to_now_witness :
  JsString.Contains "now" "now/fy"
  /\ isValid Fixture.world "now/fy" = true
  /\ parse Fixture.world "now/fy" None None = None
  /\ run (dateTimeParse (InString "now/fy") None) Fixture.world
     = (Normal Fixture.Clock,
        [CallIsValid "now/fy"; CallParse "now/fy" None None; CallMomentNow]).
Proof.
  assert (H : JsString.Contains "now" "now/fy")
    by (exists "", "/fy"; reflexivity).
  split; [exact H|]. split; [reflexivity|]. split; [reflexivity|].
  exact (unevaluated_expression_resolves_to_now Fixture.world "now/fy" None
           H eq_refl eq_refl).
Defined.



(** ["Not/AZone"] is no zone of the database and no spelling of ["utc"]. *)
Lemma unknown_zone_is_read_locally_witness :
  momentTzZone Fixture.world "Not/AZone" = None
  /\ utcWord "Not/AZone" = false
  /\ run (dateTimeParse date (Fixture.inZone "Not/AZone")) Fixture.world
     = (Normal (Fixture.Local date),
        [CallMomentTzZone "Not/AZone"; CallMoment date]).
Proof.
  split; [reflexivity|]. split; [reflexivity|].
  exact (proj1 (unknown_zone_is_read_locally Fixture.world date
                  (Fixture.inZone "Not/AZone") date_on_generic_path
                  eq_refl eq_refl)).
Defined.

(** C7, as stated, fails for the zone string [" utc "]: it is no zone of the
    database and is not ["utc"] in any casing, and the date is read by
    [moment.utc(date)], as UTC, not in the local zone. *)
Lemma padded_utc_is_read_as_utc :
  momentTzZone Fixture.world " utc " = None
  /\ JsString.foldCase " utc " <> "utc"
  /\ Lodash.lowerCase " utc " = "utc"
  /\ run (dateTimeParse date (Fixture.inZone " utc ")) Fixture.world
     = (Normal (Fixture.Utc date),
        [CallMomentTzZone " utc "; CallMomentUtc date])
  /\ run (dateTimeParse date (Fixture.inZone " utc ")) Fixture.world
     <> (Normal (Fixture.Local date),
         [CallMomentTzZone " utc "; CallMoment date]).
Proof. repeat split; try reflexivity; discriminate. Qed.

(** Epoch milliseconds in the zone of New York, with either [roundUp]. *)
Lemma roundUp_only_matters_for_relative_witness :
  run (dateTimeParse (InOther 1590000000000%Z)
         (Some {| timeZone := Some "America/New_York"; roundUp := Some true |}))
    Fixture.world
  = run (dateTimeParse (InOther 1590000000000%Z)
           (Some {| timeZone := Some "America/New_York";
                    roundUp := Some false |}))
      Fixture.world.
Proof.
  exact (roundUp_only_matters_for_relative Fixture.world
           (InOther 1590000000000%Z)
           (Some {| timeZone := Some "America/New_York"; roundUp := Some true |})
           (Some {| timeZone := Some "America/New_York"; roundUp := Some false |})
           eq_refl I).
Defined.

(** ["NOW-6h"] holds a casing of the word and is read as a date. *)
Lemma now_detection_is_case_sensitive_witness :
  JsString.foldCase "NOW" = "now"
  /\ JsString.Contains "NOW" "NOW-6h"
  /\ JsString.indexOf "NOW-6h" "now" = (-1)%Z
  /\ consultsEngine
       (snd (run (dateTimeParse (InString "NOW-6h") None) Fixture.world))
     = false.
Proof.
  assert (H : JsString.Contains "NOW" "NOW-6h")
    by (exists "", "-6h"; reflexivity).
  split; [reflexivity|]. split; [exact H|]. split; [reflexivity|].
  refine (proj1 (now_detection_is_case_sensitive Fixture.world "NOW-6h" None
                   "NOW" eq_refl H _)).
  apply JsStringFacts.indexOf_no_now. reflexivity.
Defined.

End Runs.

(** ** Further facts about [indexOf] and [lowerCase] *)

Module LibraryFacts.

Import JsString.

Lemma substring_length_le (s : string) (m n : nat) :
  String.length (substring m n s) <= String.length s - m.
Proof.
  revert s n; induction m as [|m IH]; intros s n.
  - rewrite Nat.sub_0_r. revert s; induction n as [|n IHn]; intros s.
    + destruct s; simpl; lia.
    + destruct s as [|c s']; simpl; [lia|]. specialize (IHn s'). lia.
  - destruct s as [|c s']; simpl; [lia|]. apply IH.
Qed.

(** What the classes of [Lodash] say about a letter of [a-z]. *)
Lemma azLower_facts (c : ascii) :
  Lodash.azLower c = true ->
  Lodash.deburrLetter c = [c]
  /\ Lodash.isApos c = false
  /\ Lodash.toLowerCase c = c
  /\ Lodash.asciiWordChar c = true
  /\ Lodash.azUpper c = false
  /\ Lodash.digit c = false
  /\ (Lodash.code c =? 32) = false.
Proof.
  destruct c as [[] [] [] [] [] [] [] []]; intros H;
    try discriminate H; repeat split; reflexivity.
Qed.

Lemma deburr_lower (l : list ascii) :
  forallb Lodash.azLower l = true -> Lodash.deburr l = l.
Proof.
  induction l as [|c l IH]; simpl; [reflexivity|].
  intros H. apply andb_true_iff in H as [Hc Hl].
  unfold Lodash.deburr in *. simpl.
  rewrite (proj1 (azLower_facts c Hc)), (IH Hl). reflexivity.
Qed.

Lemma filter_apos_lower (l : list ascii) :
  forallb Lodash.azLower l = true ->
  filter (fun c => negb (Lodash.isApos c)) l = l.
Proof.
  induction l as [|c l IH]; simpl; [reflexivity|].
  intros H. apply andb_true_iff in H as [Hc Hl].
  destruct (azLower_facts c Hc) as (_ & -> & _). simpl. now rewrite IH.
Qed.

Lemma hasUnicodeWord_lower (l : list ascii) :
  forallb Lodash.azLower l = true -> Lodash.hasUnicodeWord l = false.
Proof.
  induction l as [|a l IH]; [reflexivity|].
  intros H. simpl in H. apply andb_true_iff in H as [Ha Hl].
  cbn [Lodash.hasUnicodeWord]. rewrite (IH Hl), orb_false_r.
  destruct (azLower_facts a Ha) as (_ & _ & _ & _ & Hua & Hda & Hsa).
  unfold Lodash.hasUnicodeWordAt. rewrite Ha, Hua, Hda. simpl.
  destruct l as [|b l']; [reflexivity|].
  simpl in Hl. apply andb_true_iff in Hl as [Hb _].
  destruct (azLower_facts b Hb) as (_ & _ & _ & _ & Hub & Hdb & _).
  rewrite Hub, Hdb. simpl. destruct l'; reflexivity.
Qed.

Lemma asciiWordsFrom_lower (cur l : list ascii) :
  forallb Lodash.azLower l = true ->
  Lodash.asciiWordsFrom cur l = Lodash.flush (cur ++ l)%list.
Proof.
  revert cur; induction l as [|c l IH]; intros cur H; simpl.
  - now rewrite app_nil_r.
  - simpl in H. apply andb_true_iff in H as [Hc Hl].
    destruct (azLower_facts c Hc) as (_ & _ & _ & -> & _).
    rewrite (IH _ Hl), <- app_assoc. reflexivity.
Qed.

Lemma map_toLowerCase_lower (l : list ascii) :
  forallb Lodash.azLower l = true -> map Lodash.toLowerCase l = l.
Proof.
  induction l as [|c l IH]; simpl; [reflexivity|].
  intros H. apply andb_true_iff in H as [Hc Hl].
  destruct (azLower_facts c Hc) as (_ & _ & -> & _). now rewrite IH.
Qed.

(** [lowerCase] leaves a word of letters [a-z] as it is. *)
Lemma lowerCase_lowerLetters (s : string) :
  lowerLetters s = true -> Lodash.lowerCase s = s.
Proof.
  unfold lowerLetters, Lodash.lowerCase. intros H.
  rewrite (deburr_lower _ H), (filter_apos_lower _ H).
  unfold Lodash.words. rewrite (hasUnicodeWord_lower _ H).
  unfold Lodash.asciiWords. rewrite (asciiWordsFrom_lower _ _ H). simpl.
  destruct (list_ascii_of_string s) as [|c l] eqn:E.
  - simpl. rewrite <- (string_of_list_ascii_of_string s), E. reflexivity.
  - cbn [Lodash.flush Lodash.compound]. rewrite app_nil_l, app_nil_r.
    rewrite (map_toLowerCase_lower _ H), <- E.
    apply string_of_list_ascii_of_string.
Qed.

(** The casings of the three letters of ["utc"]. *)
Lemma foldAscii_u (c : ascii) :
  foldAscii c = "u"%char -> c = "u"%char \/ c = "U"%char.
Proof.
  destruct c as [[] [] [] [] [] [] [] []]; intros H;
    try discriminate H; auto.
Qed.

Lemma foldAscii_t (c : ascii) :
  foldAscii c = "t"%char -> c = "t"%char \/ c = "T"%char.
Proof.
  destruct c as [[] [] [] [] [] [] [] []]; intros H;
    try discriminate H; auto.
Qed.

Lemma foldAscii_c (c : ascii) :
  foldAscii c = "c"%char -> c = "c"%char \/ c = "C"%char.
Proof.
  destruct c as [[] [] [] [] [] [] [] []]; intros H;
    try discriminate H; auto.
Qed.

Lemma casings_of_utc (s : string) :
  foldCase s = "utc" ->
  In s ["utc"; "UTC"; "Utc"] \/ In s ["uTc"; "utC"; "UTc"; "uTC"; "UtC"].
Proof.
  destruct s as [|a [|b [|c [|d s]]]]; try discriminate.
  simpl. intros H. injection H as Ha Hb Hc.
  destruct (foldAscii_u _ Ha) as [-> | ->],
           (foldAscii_t _ Hb) as [-> | ->],
           (foldAscii_c _ Hc) as [-> | ->]; simpl; tauto.
Qed.

End LibraryFacts.

(** ** Further properties of [indexOf] *)

(** X6.  For a search string that is not empty, [indexOf] answers [-1]
    exactly when the string occurs nowhere in the text, and answers [k]
    exactly when the string occurs at position [k] and at no position before
    it; such an occurrence lies within the text. *)
Theorem indexOf_position (s t : string) :
  t <> "" ->
  (JsString.indexOf s t = (-1)%Z
   <-> forall j, substring j (String.length t) s <> t)
  /\ (forall k,
        JsString.indexOf s t = Z.of_nat k
        <-> substring k (String.length t) s = t
            /\ forall j, j < k -> substring j (String.length t) s <> t)
  /\ (forall k,
        JsString.indexOf s t = Z.of_nat k ->
        k + String.length t <= String.length s).
Proof.
  intros Ht.
  assert (Hfound : forall k,
            JsString.indexOf s t = Z.of_nat k ->
            substring k (String.length t) s = t
            /\ forall j, j < k -> substring j (String.length t) s <> t).
  { intros k. unfold JsString.indexOf.
    destruct (index 0 t s) as [m|] eqn:E; [|lia].
    intros H. assert (m = k) as -> by lia. split.
    - exact (index_correct1 _ _ _ _ E).
    - intros j Hj. exact (index_correct2 _ _ _ _ E j (Nat.le_0_l _) Hj). }
  split; [|split].
  - unfold JsString.indexOf. destruct (index 0 t s) as [m|] eqn:E.
    + split; [lia|]. intros H. exfalso.
      exact (H m (index_correct1 _ _ _ _ E)).
    + split; [|reflexivity]. intros _ j.
      exact (index_correct3 _ j _ _ E Ht (Nat.le_0_l _)).
  - intros k. split; [apply Hfound|]. intros [Hocc Hfirst].
    unfold JsString.indexOf. destruct (index 0 t s) as [m|] eqn:E.
    + f_equal. destruct (Nat.lt_trichotomy m k) as [Hlt|[Heq|Hgt]].
      * exfalso. exact (Hfirst m Hlt (index_correct1 _ _ _ _ E)).
      * exact Heq.
      * exfalso.
        exact (index_correct2 _ _ _ _ E k (Nat.le_0_l _) Hgt Hocc).
    + exfalso.
      exact (index_correct3 _ k _ _ E Ht (Nat.le_0_l _) Hocc).
  - intros k H. destruct (Hfound k H) as [Hocc _].
    pose proof (LibraryFacts.substring_length_le s k (String.length t)) as Hle.
    rewrite Hocc in Hle. destruct t; [contradiction|]. simpl in *. lia.
Qed.

(** ** Further properties of the parser *)

Section FurtherFacts.

Context {DateTime Other : Type}.

Local Abbreviation Input := (DateTimeInput DateTime Other).

Implicit Types (env : Env DateTime Other) (value : Input)
  (options : option DateTimeOptionsWhenParsing).

(** The calls of [parseOthers]: the lookup, then one construction from the
    date. *)
Lemma parseOthers_calls env value options :
  exists d c,
    run (parseOthers value options) env
    = (Normal d, (lookupCalls env options ++ [c])%list)
    /\ isMomentNowCall c = false.
Proof.
  destruct (zone_cases env (effectiveTimeZone env options))
    as [(z & Hz & Hn)|Hz].
  - rewrite (parseOthers_in_zone _ _ _ _ Hz Hn). do 2 eexists. now split.
  - destruct (string_dec (Lodash.lowerCase (effectiveTimeZone env options))
                "utc") as [Hl|Hl].
    + rewrite (parseOthers_utc _ _ _ Hz Hl). do 2 eexists. now split.
    + rewrite (parseOthers_local _ _ _ Hz Hl). do 2 eexists. now split.
Qed.

Lemma parseOthers_no_momentNow env value options :
  callsMomentNow (snd (run (parseOthers value options) env)) = false.
Proof.
  destruct (parseOthers_calls env value options) as (d & c & -> & Hc).
  simpl. unfold lookupCalls, callsMomentNow.
  destruct (optTimeZone options); simpl; rewrite Hc; reflexivity.
Qed.

(** X1.  A string that contains ["now"], passes [isValid] and that [parse]
    evaluates resolves to the instant [parse] answers; [parse] is handed
    [options?.roundUp] and [options?.timeZone] as they are, and nothing else
    is called. *)
Theorem valid_expression_is_evaluated env s options (d : DateTime) :
  JsString.Contains "now" s ->
  isValid env s = true ->
  parse env s (optRoundUp options) (optTimeZone options) = Some d ->
  run (dateTimeParse (InString s) options) env
  = (Normal d,
     [CallIsValid s; CallParse s (optRoundUp options) (optTimeZone options)]).
Proof.
  intros Hnow Hvalid Hparse.
  rewrite dateTimeParse_string, (parseString_relative _ _ _ Hnow), Hvalid, Hparse.
  reflexivity.
Qed.

(** X2.  A string that contains ["now"] is resolved by the engine and the
    clock alone: the run reads neither the default zone nor the zone
    database, constructs nothing from the text, and is the same in two worlds
    that agree on the engine's answers for this string and on the clock. *)
Theorem relative_path_ignores_zones env env' s options :
  JsString.Contains "now" s ->
  isValid env s = isValid env' s ->
  parse env s (optRoundUp options) (optTimeZone options)
  = parse env' s (optRoundUp options) (optTimeZone options) ->
  momentNow env = momentNow env' ->
  usesZones (snd (run (dateTimeParse (InString s) options) env)) = false
  /\ run (dateTimeParse (InString s) options) env
     = run (dateTimeParse (InString s) options) env'.
Proof.
  intros Hnow Hvalid Hparse Hclock.
  rewrite !dateTimeParse_string, !(parseString_relative _ _ _ Hnow).
  rewrite <- Hvalid, <- Hparse, <- Hclock.
  destruct (isValid env s); [|now split].
  destruct (parse env s _ _); now split.
Qed.

(** X3.  An input on the generic path is resolved by the zones and the
    constructions alone: the run never asks the engine, never calls
    [moment()] without an argument, and is the same in two worlds that agree
    on the default zone, on the lookup of the effective zone and on the
    three constructions from this input. *)
Theorem generic_path_ignores_engine env env' value options :
  OnGenericPath value ->
  defaultTimeZone env = defaultTimeZone env' ->
  momentTzZone env (effectiveTimeZone env options)
  = momentTzZone env' (effectiveTimeZone env options) ->
  (forall n, momentTz env value n = momentTz env' value n) ->
  momentUtc env value = momentUtc env' value ->
  moment env value = moment env' value ->
  consultsEngine (snd (run (dateTimeParse value options) env)) = false
  /\ callsMomentNow (snd (run (dateTimeParse value options) env)) = false
  /\ run (dateTimeParse value options) env
     = run (dateTimeParse value options) env'.
Proof.
  intros Hpath Hdefault Hzone Htz Hutc Hlocal.
  rewrite !(dateTimeParse_generic _ _ _ Hpath).
  split; [apply parseOthers_no_engine|]. split; [apply parseOthers_no_momentNow|].
  assert (Heff : effectiveTimeZone env' options = effectiveTimeZone env options)
    by (unfold effectiveTimeZone; now rewrite Hdefault).
  assert (Hcalls : lookupCalls env' options = lookupCalls env options)
    by (unfold lookupCalls; now rewrite Hdefault).
  destruct (zone_cases env (effectiveTimeZone env options))
    as [(z & Hz & Hn)|Hz].
  - rewrite (parseOthers_in_zone env _ _ _ Hz Hn).
    rewrite (parseOthers_in_zone env' value options z);
      [now rewrite Hcalls, Htz | now rewrite Heff, <- Hzone | exact Hn].
  - assert (Hz' : forall z,
              momentTzZone env' (effectiveTimeZone env' options) = Some z ->
              name z = "")
      by (intros z; rewrite Heff, <- Hzone; apply Hz).
    destruct (string_dec (Lodash.lowerCase (effectiveTimeZone env options))
                "utc") as [Hl|Hl].
    + rewrite (parseOthers_utc env _ _ Hz Hl).
      rewrite (parseOthers_utc env' value options Hz');
        [now rewrite Hcalls, Hutc | now rewrite Heff].
    + rewrite (parseOthers_local env _ _ Hz Hl).
      rewrite (parseOthers_local env' value options Hz');
        [now rewrite Hcalls, Hlocal | now rewrite Heff].
Qed.

(** X4.  [moment()] is called without an argument exactly when the input is
    a string that contains ["now"] and that the engine rejects or fails to
    evaluate; for every other input the parser hands the value to one of the
    constructions from a date, or returns it. *)
Theorem moment_now_only_after_engine_failure env value options :
  callsMomentNow (snd (run (dateTimeParse value options) env)) = true
  <-> exists s,
        value = InString s
        /\ JsString.Contains "now" s
        /\ (isValid env s = false
            \/ parse env s (optRoundUp options) (optTimeZone options) = None).
Proof.
  destruct value as [d|s|x].
  - split; [discriminate|]. intros (s & [=] & _).
  - rewrite dateTimeParse_string.
    destruct (JsString.indexOf s "now" =? -1)%Z eqn:E.
    + apply JsStringFacts.indexOf_no_now in E.
      rewrite (parseString_generic _ _ _ E), parseOthers_no_momentNow.
      split; [discriminate|]. intros (s' & [= <-] & Hnow & _). contradiction.
    + apply JsStringFacts.indexOf_now in E.
      rewrite (parseString_relative _ _ _ E).
      destruct (isValid env s) eqn:Hv.
      * destruct (parse env s _ _) as [d|] eqn:Hp; simpl.
        -- split; [discriminate|].
           intros (s' & [= <-] & _ & [H|H]); congruence.
        -- split; [intros _|reflexivity]. exists s. auto.
      * simpl. split; [intros _|reflexivity]. exists s. auto.
  - change (run (dateTimeParse (InOther x) options) env)
      with (run (parseOthers (InOther x) options) env).
    rewrite parseOthers_no_momentNow.
    split; [discriminate|]. intros (s & [=] & _).
Qed.

(** X7.  With the effective zone absent from the zone database and spelled
    as some casing of ["utc"], the input is read by [moment.utc(date)] for
    the casings ["utc"], ["UTC"] and ["Utc"], and by [moment(date)], in the
    local zone, for the five others. *)
Theorem casings_of_utc_without_zone_data env value options :
  OnGenericPath value ->
  momentTzZone env (effectiveTimeZone env options) = None ->
  JsString.foldCase (effectiveTimeZone env options) = "utc" ->
  (In (effectiveTimeZone env options) ["utc"; "UTC"; "Utc"]
   /\ run (dateTimeParse value options) env
      = (Normal (momentUtc env value),
         (lookupCalls env options ++ [CallMomentUtc value])%list))
  \/ (In (effectiveTimeZone env options) ["uTc"; "utC"; "UTc"; "uTC"; "UtC"]
      /\ run (dateTimeParse value options) env
         = (Normal (moment env value),
            (lookupCalls env options ++ [CallMoment value])%list)).
Proof.
  intros Hpath Hzone Hfold.
  rewrite (dateTimeParse_generic _ _ _ Hpath).
  assert (Hz : forall z,
            momentTzZone env (effectiveTimeZone env options) = Some z ->
            name z = "")
    by (intros z Ez; rewrite Hzone in Ez; discriminate).
  destruct (LibraryFacts.casings_of_utc _ Hfold) as [Hin|Hin].
  - left. split; [exact Hin|]. apply parseOthers_utc; [exact Hz|].
    destruct Hin as [<-|[<-|[<-|[]]]]; reflexivity.
  - right. split; [exact Hin|]. apply parseOthers_local; [exact Hz|].
    destruct Hin as [<-|[<-|[<-|[<-|[<-|[]]]]]]; discriminate.
Qed.

(** X8.  With the effective zone absent from the zone database and spelled
    in letters [a-z] only, the zone string is compared as it stands: the
    input is read by [moment.utc(date)] when the string is ["utc"] and by
    [moment(date)], in the local zone, for every other such string. *)
Theorem lower_case_zone_is_matched_literally env value options :
  OnGenericPath value ->
  momentTzZone env (effectiveTimeZone env options) = None ->
  lowerLetters (effectiveTimeZone env options) = true ->
  run (dateTimeParse value options) env
  = if (effectiveTimeZone env options =? "utc")%string
    then (Normal (momentUtc env value),
          (lookupCalls env options ++ [CallMomentUtc value])%list)
    else (Normal (moment env value),
          (lookupCalls env options ++ [CallMoment value])%list).
Proof.
  intros Hpath Hzone Hlower.
  rewrite (dateTimeParse_generic _ _ _ Hpath).
  assert (Hz : forall z,
            momentTzZone env (effectiveTimeZone env options) = Some z ->
            name z = "")
    by (intros z Ez; rewrite Hzone in Ez; discriminate).
  pose proof (LibraryFacts.lowerCase_lowerLetters _ Hlower) as Hl.
  destruct (effectiveTimeZone env options =? "utc")%string eqn:E.
  - apply String.eqb_eq in E. apply parseOthers_utc; [exact Hz|].
    now rewrite Hl.
  - apply String.eqb_neq in E. apply parseOthers_local; [exact Hz|].
    now rewrite Hl.
Qed.

(** X9.  With the effective zone absent from the zone database, every
    spelling of ["utc"] that [utcWord] accepts (["utc"], ["Utc"] or ["UTC"]
    between separators, accents and apostrophes set aside) is read by
    [moment.utc(date)], as UTC. *)
Theorem utc_spellings_are_read_as_utc env value options :
  OnGenericPath value ->
  momentTzZone env (effectiveTimeZone env options) = None ->
  utcWord (effectiveTimeZone env options) = true ->
  run (dateTimeParse value options) env
  = (Normal (momentUtc env value),
     (lookupCalls env options ++ [CallMomentUtc value])%list).
Proof.
  intros Hpath Hzone Hword.
  rewrite (dateTimeParse_generic _ _ _ Hpath).
  apply parseOthers_utc.
  - intros z Ez. rewrite Hzone in Ez. discriminate.
  - now apply NormalisationFacts.lowerCase_utc.
Qed.

End FurtherFacts.

(** ** The further properties at work in the small world *)

Section FurtherRuns.

Local Abbreviation date := (InString "2020-06-01 12:00").

Local Abbreviation upInStockholm :=
  (Some {| timeZone := Some "Europe/Stockholm"; roundUp := Some true |}).

(** ["now"] stands at position 5 of ["2020 now-1h"], and ["NOW-1h"] does not
    hold it. *)
Lemma indexOf_position_witness :
  "now" <> ""
  /\ JsString.indexOf "2020 now-1h" "now" = 5%Z
  /\ 5 + String.length "now" <= String.length "2020 now-1h"
  /\ forall j, substring j (String.length "now") "NOW-1h" <> "now".
Proof.
  assert (H : "now" <> "") by discriminate.
  split; [exact H|].
  assert (E : JsString.indexOf "2020 now-1h" "now" = Z.of_nat 5).
  { apply (proj2 (proj1 (proj2 (indexOf_position "2020 now-1h" "now" H)) 5)).
    split; [reflexivity|]. intros j Hj.
    do 5 (destruct j as [|j]; [discriminate|]). lia. }
  split; [exact E|]. split.
  - exact (proj2 (proj2 (indexOf_position "2020 now-1h" "now" H)) 5 E).
  - exact (proj1 (proj1 (indexOf_position "NOW-1h" "now" H)) eq_refl).
Defined.

(** ["now-6h"] with [roundUp] is what the engine makes of it. *)
Lemma valid_expression_is_evaluated_witness :
  JsString.Contains "now" "now-6h"
  /\ isValid Fixture.world "now-6h" = true
  /\ run (dateTimeParse (InString "now-6h")
            (Some {| timeZone := None; roundUp := Some true |}))
       Fixture.world
     = (Normal (Fixture.Evaluated "now-6h" (Some true) None),
        [CallIsValid "now-6h"; CallParse "now-6h" (Some true) None]).
Proof.
  assert (H : JsString.Contains "now" "now-6h")
    by (exists "", "-6h"; reflexivity).
  split; [exact H|]. split; [reflexivity|].
  exact (valid_expression_is_evaluated Fixture.world "now-6h"
           (Some {| timeZone := None; roundUp := Some true |})
           (Fixture.Evaluated "now-6h" (Some true) None) H eq_refl eq_refl).
Defined.

(** ["now-1d/d"] runs alike with and without zone data. *)
Lemma relative_path_ignores_zones_witness :
  JsString.Contains "now" "now-1d/d"
  /\ momentTzZone Fixture.world "Europe/Stockholm"
     <> momentTzZone Fixture.bareWorld "Europe/Stockholm"
  /\ run (dateTimeParse (InString "now-1d/d") upInStockholm) Fixture.world
     = run (dateTimeParse (InString "now-1d/d") upInStockholm)
         Fixture.bareWorld.
Proof.
  assert (H : JsString.Contains "now" "now-1d/d")
    by (exists "", "-1d/d"; reflexivity).
  split; [exact H|]. split; [discriminate|].
  exact (proj2 (relative_path_ignores_zones Fixture.world Fixture.bareWorld
                  "now-1d/d" upInStockholm H eq_refl eq_refl eq_refl)).
Defined.

(** A date runs alike whatever the engine and [moment()]. *)
Lemma generic_path_ignores_engine_witness :
  momentNow Fixture.world <> momentNow Fixture.deafWorld
  /\ isValid Fixture.world "now" <> isValid Fixture.deafWorld "now"
  /\ run (dateTimeParse date upInStockholm) Fixture.world
     = run (dateTimeParse date upInStockholm) Fixture.deafWorld.
Proof.
  split; [discriminate|]. split; [discriminate|].
  exact (proj2 (proj2 (generic_path_ignores_engine Fixture.world
                         Fixture.deafWorld date upInStockholm
                         date_on_generic_path eq_refl eq_refl
                         (fun _ => eq_refl) eq_refl eq_refl))).
Defined.

(** Without zone data, ["UtC"] is one of the five casings read locally. *)
Lemma casings_of_utc_without_zone_data_witness :
  JsString.foldCase "UtC" = "utc"
  /\ ((In "UtC" ["utc"; "UTC"; "Utc"]
       /\ run (dateTimeParse date (Fixture.inZone "UtC")) Fixture.bareWorld
          = (Normal (Fixture.Utc date),
             [CallMomentTzZone "UtC"; CallMomentUtc date]))
      \/ (In "UtC" ["uTc"; "utC"; "UTc"; "uTC"; "UtC"]
          /\ run (dateTimeParse date (Fixture.inZone "UtC")) Fixture.bareWorld
             = (Normal (Fixture.Local date),
                [CallMomentTzZone "UtC"; CallMoment date]))).
Proof.
  split; [reflexivity|].
  exact (casings_of_utc_without_zone_data Fixture.bareWorld date
           (Fixture.inZone "UtC") date_on_generic_path eq_refl eq_refl).
Defined.

(** The default zone ["browser"] is no zone of the database and is not
    ["utc"]. *)
Lemma lower_case_zone_is_matched_literally_witness :
  effectiveTimeZone Fixture.world None = "browser"
  /\ lowerLetters "browser" = true
  /\ run (dateTimeParse date None) Fixture.world
     = (Normal (Fixture.Local date),
        [CallDefaultTimeZone; CallMomentTzZone "browser"; CallMoment date]).
Proof.
  split; [reflexivity|]. split; [reflexivity|].
  exact (lower_case_zone_is_matched_literally Fixture.world date None
           date_on_generic_path eq_refl eq_refl).
Defined.

(** ["_UTC_"] is no zone of the database and a spelling of ["utc"]. *)
Lemma utc_spellings_are_read_as_utc_witness :
  momentTzZone Fixture.world "_UTC_" = None
  /\ utcWord "_UTC_" = true
  /\ run (dateTimeParse date (Fixture.inZone "_UTC_")) Fixture.world
     = (Normal (Fixture.Utc date),
        [CallMomentTzZone "_UTC_"; CallMomentUtc date]).
Proof.
  split; [reflexivity|]. split; [reflexivity|].
  exact (utc_spellings_are_read_as_utc Fixture.world date
           (Fixture.inZone "_UTC_") date_on_generic_path eq_refl eq_refl).
Defined.

End FurtherRuns.
